(** * The Ceph kernel client bootstrap core (src/kernel/client.c)

    A shallow embedding of [client.c]: the shared work-queue counter, the
    root-directory open sequence, the mount retry loop, the first-map
    tracker and the inbound message dispatcher, followed by the properties
    proved about them.

    Conventions.  C [int] values are [Z] with the two's-complement wrap
    written out ([wrap_int]); pointers that the file only tests against
    [NULL] are [option]s; pointers returned through [ERR_PTR] are
    [ptr_result]s.  Functions of other files ([ceph_mdsc_do_request],
    [ceph_fill_trace], the subsystem handlers, ...) are not defined in
    [client.c]: their outcomes are supplied by an environment record or by
    the [Collaborators] interface, and every statement quantifies over
    them.  The calls [client.c] itself makes on resources are recorded as
    events, in program order. *)

From Stdlib Require Import String ZArith List Bool Lia.
Import ListNotations.
Local Open Scope Z_scope.

(** ** C integers and kernel idioms *)

Definition INT_MAX : Z := 2 ^ 31 - 1.
Definition INT_MIN : Z := - 2 ^ 31.

(** Arithmetic on [int] as the kernel is built (wrapping two's complement). *)
Definition wrap_int (z : Z) : Z := (z + 2 ^ 31) mod 2 ^ 32 - 2 ^ 31.

(** [le32_to_cpu]: the 32-bit unsigned value carried by a wire field. *)
Definition le32_to_cpu (raw : Z) : Z := raw mod 2 ^ 32.
Definition cpu_to_le32 (v : Z) : Z := v mod 2 ^ 32.

(** Assigning a [u32] to an [int] variable. *)
Definition int_of_u32 (u : Z) : Z := wrap_int u.

(** C's [%] on [int], for a divisor that is not zero: the quotient
    truncates toward zero, so the remainder takes the sign of the dividend.
    A zero divisor is a divide error; the code that divides ([mount_loop])
    tests for it before it uses [c_rem]. *)
Definition c_rem (a b : Z) : Z := Z.rem a b.

Definition EINTR : Z := 4.
Definition EIO : Z := 5.
Definition ENOMEM : Z := 12.
Definition EINVAL : Z := 22.

(** A pointer that is either valid or an [ERR_PTR(-errno)]: [IS_ERR] holds
    of the encodings of the negative error numbers only. *)
Inductive ptr_result (A : Type) : Type :=
| Ptr (a : A)
| ErrPtr (errno : positive).
Arguments Ptr {A} a.
Arguments ErrPtr {A} errno.

Definition PTR_ERR (errno : positive) : Z := Z.neg errno.

(** [ERR_PTR(err)] for a negative [err]. *)
Definition ERR_PTR {A : Type} (err : Z) : ptr_result A := ErrPtr (Z.to_pos (- err)).

(** ** The work queue shared between clients *)

Inductive wq_event : Type :=
| WorkqueueInit        (* ceph_workqueue_init() *)
| WorkqueueShutdown.   (* ceph_workqueue_shutdown() *)

(** Both functions run under [ceph_client_spinlock]: each is one atomic
    step on [ceph_num_clients], returning the new count and the calls made. *)
Definition get_client_counter (ceph_num_clients : Z) : Z * list wq_event :=
  let ev := if ceph_num_clients =? 0 then [WorkqueueInit] else [] in
  (wrap_int (ceph_num_clients + 1), ev).

Definition put_client_counter (ceph_num_clients : Z) : Z * list wq_event :=
  let n := wrap_int (ceph_num_clients - 1) in
  (n, if n =? 0 then [WorkqueueShutdown] else []).

(** The order in which the two critical sections are entered. *)
Inductive counter_op : Type := Acquire | Release.

Definition counter_step (n : Z) (o : counter_op) : Z * list wq_event :=
  match o with
  | Acquire => get_client_counter n
  | Release => put_client_counter n
  end.

Fixpoint counter_run (n : Z) (ops : list counter_op) : Z :=
  match ops with
  | [] => n
  | o :: rest => counter_run (fst (counter_step n o)) rest
  end.

(** [put_client_counter] is reached only from the [fail:] path of
    [ceph_create_client], after that call's own [get_client_counter], and
    from [ceph_destroy_client] on a created aggregate.  [holders h ops] is
    the number of aggregates holding a count after [ops], starting from
    [h]; it is [None] when some release has no holder. *)
Fixpoint holders (h : nat) (ops : list counter_op) : option nat :=
  match ops with
  | [] => Some h
  | Acquire :: rest => holders (S h) rest
  | Release :: rest =>
      match h with
      | O => None
      | S h' => holders h' rest
      end
  end.

Definition well_bracketed (ops : list counter_op) : Prop :=
  exists h, holders 0 ops = Some h.

(** The largest number of aggregates holding a count at any point of
    [ops], starting from [h]. *)
Fixpoint peak (h : nat) (ops : list counter_op) : nat :=
  match ops with
  | [] => h
  | Acquire :: rest => Nat.max h (peak (S h) rest)
  | Release :: rest => Nat.max h (peak (pred h) rest)
  end.

(** [ops] is an interleaving of the sequences [threads], each kept in its
    own order. *)
Inductive interleaving : list (list counter_op) -> list counter_op -> Prop :=
| interleaving_done (threads : list (list counter_op)) :
    Forall (fun t => t = []) threads -> interleaving threads []
| interleaving_step (before : list (list counter_op)) (o : counter_op)
    (t : list counter_op) (after : list (list counter_op))
    (ops : list counter_op) :
    interleaving (before ++ t :: after) ops ->
    interleaving (before ++ (o :: t) :: after) (o :: ops).

(** ** Data model

    The structures are declared in [super.h], which [client.c] includes;
    the records below carry the fields [client.c] reads or writes.  The
    memory of a structure that [client.c] never looks into is kept as an
    uninterpreted block of bytes. *)

Definition opaque : Type := list Z.

Record ceph_entity_name : Type := {
  name_type : Z;   (* __le32 *)
  name_num : Z     (* __le32 *)
}.

Record ceph_monmap : Type := {
  epoch : Z;
  monmap_body : opaque
}.

Record ceph_mon_client : Type := {
  monmap : ceph_monmap;
  monc_private : opaque
}.

(** [mdsmap] and [osdmap] are pointers tested against [NULL]. *)
Record ceph_mds_client : Type := {
  mdsmap : option opaque;
  mdsc_private : opaque
}.

Record ceph_osd_client : Type := {
  osdmap : option opaque;
  osdc_private : opaque
}.

Definition inode : Type := Z.

Record dentry : Type := {
  d_inode : option inode
}.

Record ceph_client : Type := {
  whoami : Z;                        (* int *)
  mounting : Z;                      (* unsigned long, a bit mask *)
  mount_completion : Z;              (* struct completion: its [done] count *)
  monc : ceph_mon_client;
  mdsc : ceph_mds_client;
  osdc : ceph_osd_client;
  msgr_inst_name : ceph_entity_name; (* client->msgr->inst.name *)
  s_root : option dentry             (* client->sb->s_root *)
}.

Definition set_mounting (c : ceph_client) (m : Z) : ceph_client :=
  {| whoami := whoami c; mounting := m;
     mount_completion := mount_completion c;
     monc := monc c; mdsc := mdsc c; osdc := osdc c;
     msgr_inst_name := msgr_inst_name c; s_root := s_root c |}.

Definition set_mount_completion (c : ceph_client) (d : Z) : ceph_client :=
  {| whoami := whoami c; mounting := mounting c;
     mount_completion := d;
     monc := monc c; mdsc := mdsc c; osdc := osdc c;
     msgr_inst_name := msgr_inst_name c; s_root := s_root c |}.

Definition set_monc (c : ceph_client) (m : ceph_mon_client) : ceph_client :=
  {| whoami := whoami c; mounting := mounting c;
     mount_completion := mount_completion c;
     monc := m; mdsc := mdsc c; osdc := osdc c;
     msgr_inst_name := msgr_inst_name c; s_root := s_root c |}.

Definition set_mdsc (c : ceph_client) (m : ceph_mds_client) : ceph_client :=
  {| whoami := whoami c; mounting := mounting c;
     mount_completion := mount_completion c;
     monc := monc c; mdsc := m; osdc := osdc c;
     msgr_inst_name := msgr_inst_name c; s_root := s_root c |}.

Definition set_osdc (c : ceph_client) (o : ceph_osd_client) : ceph_client :=
  {| whoami := whoami c; mounting := mounting c;
     mount_completion := mount_completion c;
     monc := monc c; mdsc := mdsc c; osdc := o;
     msgr_inst_name := msgr_inst_name c; s_root := s_root c |}.

Definition set_identity (c : ceph_client) (w : Z) (n : ceph_entity_name)
  : ceph_client :=
  {| whoami := w; mounting := mounting c;
     mount_completion := mount_completion c;
     monc := monc c; mdsc := mdsc c; osdc := osdc c;
     msgr_inst_name := n; s_root := s_root c |}.

(** The message types [client.c] names (in [ceph_msg_type_name]); any other
    wire tag is [CEPH_MSG_OTHER].  Their numeric values are in [ceph_fs.h]. *)
Inductive msg_type : Type :=
| CEPH_MSG_SHUTDOWN
| CEPH_MSG_PING
| CEPH_MSG_PING_ACK
| CEPH_MSG_MON_MAP
| CEPH_MSG_CLIENT_MOUNT
| CEPH_MSG_CLIENT_UNMOUNT
| CEPH_MSG_STATFS
| CEPH_MSG_STATFS_REPLY
| CEPH_MSG_MDS_GETMAP
| CEPH_MSG_MDS_MAP
| CEPH_MSG_CLIENT_SESSION
| CEPH_MSG_CLIENT_RECONNECT
| CEPH_MSG_CLIENT_REQUEST
| CEPH_MSG_CLIENT_REQUEST_FORWARD
| CEPH_MSG_CLIENT_REPLY
| CEPH_MSG_CLIENT_FILECAPS
| CEPH_MSG_OSD_GETMAP
| CEPH_MSG_OSD_MAP
| CEPH_MSG_OSD_OP
| CEPH_MSG_OSD_OPREPLY
| CEPH_MSG_OTHER (tag : Z).

Record ceph_msg : Type := {
  hdr_type : msg_type;              (* le32_to_cpu(msg->hdr.type) *)
  hdr_dst_name : ceph_entity_name;  (* msg->hdr.dst.name *)
  front : list Z                    (* msg->front: iov_base .. +iov_len *)
}.

(** ** Creating and destroying a client *)

Record create_env : Type := {
  ce_kzalloc : bool;                                (* false: NULL *)
  ce_messenger_create : ptr_result ceph_entity_name;
  ce_monc_init : Z * ceph_mon_client;
  ce_mdsc_init : ceph_mds_client;
  ce_osdc_init : ceph_osd_client
}.

(** Returns the client (or [ERR_PTR]), the new [ceph_num_clients] and the
    work-queue calls made. *)
Definition ceph_create_client (env : create_env) (sb : option dentry)
    (ceph_num_clients : Z) : ptr_result ceph_client * Z * list wq_event :=
  if negb (ce_kzalloc env) then
    (ERR_PTR (- ENOMEM), ceph_num_clients, [])
  else
    let (n1, ev1) := get_client_counter ceph_num_clients in
    let fail (err : Z) : ptr_result ceph_client * Z * list wq_event :=
      let p := put_client_counter n1 in
      (ERR_PTR err, fst p, ev1 ++ snd p) in
    match ce_messenger_create env with
    | ErrPtr e => fail (PTR_ERR e)
    | Ptr inst_name =>
        let (err, monc0) := ce_monc_init env in
        if err <? 0 then fail err
        else
          (Ptr {| whoami := -1;
                  mounting := 0;   (* wait for mon+mds+osd *)
                  mount_completion := 0;
                  monc := monc0;
                  mdsc := ce_mdsc_init env;
                  osdc := ce_osdc_init env;
                  msgr_inst_name := inst_name;
                  s_root := sb |},
           n1, ev1)
    end.

Definition ceph_destroy_client (cl : ceph_client) (ceph_num_clients : Z)
  : Z * list wq_event :=
  put_client_counter ceph_num_clients.

(** The critical sections one call of [ceph_create_client] enters. *)
Definition create_ops (env : create_env) : list counter_op :=
  if negb (ce_kzalloc env) then []
  else
    match ce_messenger_create env with
    | ErrPtr _ => [Acquire; Release]
    | Ptr _ =>
        if fst (ce_monc_init env) <? 0 then [Acquire; Release]
        else [Acquire]
    end.

(** [ceph_create_client] returns a client. *)
Definition created (env : create_env) : bool :=
  ce_kzalloc env
  && match ce_messenger_create env with
     | Ptr _ => negb (fst (ce_monc_init env) <? 0)
     | ErrPtr _ => false
     end.

(** The critical sections entered for one aggregate: those of its creation
    and, when it was created and is destroyed, that of
    [ceph_destroy_client]. *)
Definition lifetime_ops (life : create_env * bool) : list counter_op :=
  create_ops (fst life)
  ++ (if created (fst life) && snd life then [Release] else []).

(** What is left of an aggregate's critical sections at any moment, and
    whether the aggregate then holds a count it will release. *)
Definition lifetime_rest (t : list counter_op) : Prop :=
  t = [] \/ t = [Acquire] \/ t = [Acquire; Release] \/ t = [Release].

Definition owed (t : list counter_op) : nat :=
  match t with
  | [Release] => 1
  | _ => 0
  end.

(** ** Opening the root directory *)

Record ceph_mds_reply_info : Type := {
  head_result : Z;          (* rinfo.head->result, __le32 *)
  head_file_caps : Z;       (* __le32 *)
  head_file_caps_seq : Z;   (* __le32 *)
  trace_nr : Z;
  trace_in0_ino : Z         (* rinfo.trace_in[0].in->ino, __le64 *)
}.

(** What the functions called by [open_root_inode] answer. *)
Record open_env : Type := {
  oe_create_request : ptr_result Z;         (* ceph_mdsc_create_request *)
  oe_do_request : Z;                        (* ceph_mdsc_do_request *)
  oe_reply_info : ceph_mds_reply_info;      (* req->r_reply_info *)
  oe_get_inode : Z * inode;                 (* ceph_get_inode: err, inode *)
  oe_d_alloc_root : bool;                   (* false: NULL *)
  oe_fill_trace : Z * option inode * option dentry;
                    (* ceph_fill_trace: err, mnt_inode, *pmnt_root *)
  oe_add_cap : ptr_result Z                 (* ceph_add_cap *)
}.

(** The calls [open_root_inode] makes on the objects it holds, by call
    site. *)
Inductive res_event : Type :=
| EvPutRequest (req : Z)           (* ceph_mdsc_put_request(req) *)
| EvIputRoot (i : inode)           (* iput(root_inode) *)
| EvIputMnt (i : option inode)     (* iput(mnt_inode) *)
| EvPin (i : option inode).        (* ci->i_nr_by_mode[FILE_MODE_PIN]++ *)

Inductive c_return : Type :=
| Return (v : Z)
| Bug                              (* BUG_ON fired *)
| DivideError.                     (* division by zero: the kernel oopses *)

Record open_result : Type := {
  or_ret : c_return;
  or_alloc_fs : bool;              (* the local alloc_fs on exit *)
  or_s_root : option dentry;       (* client->sb->s_root on exit *)
  or_pmnt_root : option dentry;    (* *pmnt_root on exit *)
  or_events : list res_event
}.

(** The [out:] label. *)
Definition out (req : Z) (err : Z) (alloc_fs : bool)
    (sroot pmnt : option dentry) (done : list res_event) : open_result :=
  {| or_ret := Return err; or_alloc_fs := alloc_fs;
     or_s_root := sroot; or_pmnt_root := pmnt;
     or_events := done ++ [EvPutRequest req] |}.

(** The [out2:] label, falling through to [out:]. *)
Definition out2 (req : Z) (err : Z) (alloc_fs : bool) (root_inode : inode)
    (mnt_inode : option inode) (sroot pmnt : option dentry) : open_result :=
  out req err alloc_fs sroot pmnt
      ((if alloc_fs then [EvIputRoot root_inode] else [])
         ++ [EvIputMnt mnt_inode]).

(** From [ceph_fill_trace] to the end of the function. *)
Definition fill_and_bind (env : open_env) (req : Z) (alloc_fs : bool)
    (root_inode : inode) (sroot : option dentry) : open_result :=
  let '(err, mnt_inode, pmnt) := oe_fill_trace env in
  if err <? 0 then out2 req err alloc_fs root_inode mnt_inode sroot pmnt
  else
    match pmnt with
    | None => out2 req (- ENOMEM) alloc_fs root_inode mnt_inode sroot pmnt
    | Some _ =>
        match oe_add_cap env with
        | ErrPtr e =>
            out2 req (PTR_ERR e) alloc_fs root_inode mnt_inode sroot pmnt
        | Ptr _ =>
            {| or_ret := Return 0; or_alloc_fs := alloc_fs;
               or_s_root := sroot; or_pmnt_root := pmnt;
               or_events := [EvPin mnt_inode; EvPutRequest req] |}
        end
    end.

Definition open_root_inode (env : open_env) (s_root0 pmnt_root0 : option dentry)
  : open_result :=
  let early err :=
    {| or_ret := Return err; or_alloc_fs := false; or_s_root := s_root0;
       or_pmnt_root := pmnt_root0; or_events := [] |} in
  match oe_create_request env with
  | ErrPtr e => early (PTR_ERR e)
  | Ptr req =>
      let err := oe_do_request env in
      if err <? 0 then early err
      else
        let rinfo := oe_reply_info env in
        let err := int_of_u32 (le32_to_cpu (head_result rinfo)) in
        if negb (err =? 0) then out req err false s_root0 pmnt_root0 []
        else if trace_nr rinfo =? 0 then
          out req (- EINVAL) false s_root0 pmnt_root0 []
        else
          match s_root0 with
          | None =>
              let (err, root_inode) := oe_get_inode env in
              if err <? 0 then out req err false s_root0 pmnt_root0 []
              else if oe_d_alloc_root env then
                fill_and_bind env req true root_inode
                              (Some {| d_inode := Some root_inode |})
              else
                out2 req (- ENOMEM) true root_inode None None pmnt_root0
          | Some d =>
              match d_inode d with
              | None => {| or_ret := Bug; or_alloc_fs := false;
                           or_s_root := s_root0; or_pmnt_root := pmnt_root0;
                           or_events := [] |}
              | Some root_inode =>
                  fill_and_bind env req false root_inode s_root0
              end
          end
  end.

(** ** Mounting *)

Record ceph_mount_args : Type := {
  num_mon : Z;
  mon_addr : list opaque       (* struct ceph_entity_addr mon_addr[] *)
}.

(** [char r; get_random_bytes(&r, 1)]: the byte written is [b], in 0..255;
    the value of [r] depends on whether [char] is signed on the target. *)
Definition char_of_byte (char_is_signed : bool) (b : Z) : Z :=
  if char_is_signed && (128 <=? b) then b - 256 else b.

(** [which = r % args->num_mon], with [which] and [num_mon] of type [int]:
    [r] is promoted to [int] and the remainder is the signed one. *)
Definition select_mon (char_is_signed : bool) (b : Z) (num_mon : Z) : Z :=
  c_rem (char_of_byte char_is_signed b) num_mon.

(** [args->mon_addr[which]]; [None] stands for a read outside the array. *)
Definition mon_addr_at (args : ceph_mount_args) (which : Z) : option opaque :=
  if which <? 0 then None else nth_error (mon_addr args) (Z.to_nat which).

(** What the surroundings do during one turn of the loop of [ceph_mount]:
    the two reads of [client->mounting] (written by the dispatcher from
    other threads), the random byte, and the results of [ceph_msg_new] and
    [wait_for_completion_timeout]. *)
Record attempt_env : Type := {
  at_mounting_test : Z;        (* client->mounting in the while test *)
  at_random : Z;               (* get_random_bytes(&r, 1) *)
  at_msg_new : ptr_result Z;   (* ceph_msg_new *)
  at_wait : Z;                 (* wait_for_completion_timeout *)
  at_mounting_after : Z        (* client->mounting after the wait *)
}.

(** [ceph_msg_send(client->msgr, mount_msg, 0)] with the destination
    written into the header. *)
Inductive mount_event : Type :=
| MountSend (msg : Z) (dst_num : Z) (dst_addr : option opaque).

Inductive loop_exit : Type :=
| LoopReturn (err : Z)   (* a return statement inside the loop *)
| LoopDone               (* the test failed, or break *)
| LoopTrap.              (* [r % args->num_mon] with [num_mon] zero *)

(** The while loop of [ceph_mount], with [attempts] as it stands on entry.
    [None]: the script of the surroundings ended before the loop did.
    With [num_mon] zero the first turn that gets past the test stops at
    the division, before [ceph_msg_new]. *)
Fixpoint mount_loop (char_is_signed : bool) (args : ceph_mount_args)
    (attempts : Z) (script : list attempt_env) (sent : list mount_event)
  : option (loop_exit * list mount_event) :=
  match script with
  | [] => None
  | a :: rest =>
      if negb (at_mounting_test a <? 7) then Some (LoopDone, sent)
      else if num_mon args =? 0 then Some (LoopTrap, sent)
      else
        let which := select_mon char_is_signed (at_random a) (num_mon args) in
        match at_msg_new a with
        | ErrPtr e => Some (LoopReturn (PTR_ERR e), sent)
        | Ptr mount_msg =>
            let sent :=
              sent ++ [MountSend mount_msg (cpu_to_le32 which)
                                 (mon_addr_at args which)] in
            let err := at_wait a in
            if err =? - EINTR then Some (LoopReturn err, sent)
            else if at_mounting_after a =? 7 then Some (LoopDone, sent)
            else
              let attempts := wrap_int (attempts - 1) in
              if attempts =? 0 then Some (LoopReturn (- EIO), sent)
              else mount_loop char_is_signed args attempts rest sent
        end
  end.

Record mount_result : Type := {
  mr_ret : c_return;
  mr_sent : list mount_event;
  mr_open : option open_result     (* set when open_root_inode was called *)
}.

Definition mount_after_loop (oenv : open_env) (s_root0 pdroot0 : option dentry)
    (ex : loop_exit) (sent : list mount_event) : mount_result :=
  match ex with
  | LoopReturn e => {| mr_ret := Return e; mr_sent := sent; mr_open := None |}
  | LoopDone =>
      let r := open_root_inode oenv s_root0 pdroot0 in
      let ret :=
        match or_ret r with
        | Return err => if err <? 0 then Return err else Return 0
        | Bug => Bug
        | DivideError => DivideError
        end in
      {| mr_ret := ret; mr_sent := sent; mr_open := Some r |}
  | LoopTrap =>
      {| mr_ret := DivideError; mr_sent := sent; mr_open := None |}
  end.

(** [ceph_mount] with the attempt budget as a parameter. *)
Definition ceph_mount_with (attempts : Z) (char_is_signed : bool)
    (args : ceph_mount_args) (script : list attempt_env) (oenv : open_env)
    (s_root0 pdroot0 : option dentry) : option mount_result :=
  match mount_loop char_is_signed args attempts script [] with
  | None => None
  | Some (ex, sent) => Some (mount_after_loop oenv s_root0 pdroot0 ex sent)
  end.

(** [int attempts = 10;] *)
Definition ceph_mount : bool -> ceph_mount_args -> list attempt_env ->
    open_env -> option dentry -> option dentry -> option mount_result :=
  ceph_mount_with 10.

(** The byte values [get_random_bytes] can write. *)
Definition all_bytes : list Z := map Z.of_nat (seq 0 256).

(** How many byte values select monitor [i]. *)
Definition selecting (char_is_signed : bool) (num_mon i : Z) (bytes : list Z)
  : Z :=
  Z.of_nat (length (filter (fun b => select_mon char_is_signed b num_mon =? i)
                           bytes)).

(** The byte values whose [char] is not negative. *)
Definition nonneg_bytes (char_is_signed : bool) : list Z :=
  filter (fun b => 0 <=? char_of_byte char_is_signed b) all_bytes.

(** The selection is in range for every byte and every monitor is selected
    by equally many byte values. *)
Definition uniform_selection (char_is_signed : bool) (num_mon : Z) : Prop :=
  (forall b, In b all_bytes ->
             0 <= select_mon char_is_signed b num_mon < num_mon)
  /\ (forall i j, 0 <= i < num_mon -> 0 <= j < num_mon ->
        selecting char_is_signed num_mon i all_bytes
        = selecting char_is_signed num_mon j all_bytes).

(** ** The first-map tracker and the dispatcher *)

(** Functions of the monitor, metadata and storage clients that
    [client.c] calls on an inbound message. *)
Class Collaborators : Type := {
  ceph_monmap_decode : list Z -> ptr_result ceph_monmap;
  ceph_monc_handle_statfs_reply : ceph_mon_client -> ceph_msg -> ceph_mon_client;
  ceph_mdsc_handle_map : ceph_mds_client -> ceph_msg -> ceph_mds_client;
  ceph_mdsc_handle_session : ceph_mds_client -> ceph_msg -> ceph_mds_client;
  ceph_mdsc_handle_reply : ceph_mds_client -> ceph_msg -> ceph_mds_client;
  ceph_mdsc_handle_forward : ceph_mds_client -> ceph_msg -> ceph_mds_client;
  ceph_mdsc_handle_filecaps : ceph_mds_client -> ceph_msg -> ceph_mds_client;
  ceph_osdc_handle_map : ceph_osd_client -> ceph_msg -> ceph_osd_client;
  ceph_osdc_handle_reply : ceph_osd_client -> ceph_msg -> ceph_osd_client
}.

(** The calls made by [client.c] while a message is dispatched. *)
Inductive event : Type :=
| EvDerrMonmap (err : Z)        (* derr: problem decoding monmap *)
| EvKfreeMonmap                 (* kfree(client->monc.monmap) *)
| EvGotFirstMap (num : Z)       (* got_first_map(client, num) entered *)
| EvComplete                    (* complete(&client->mount_completion) *)
| EvDerrUnknown (t : msg_type)  (* derr: dispatch unknown message type *)
| EvMsgPut.                     (* ceph_msg_put(msg) *)

Definition event_eq_dec (x y : event) : {x = y} + {x <> y}.
Proof. repeat decide equality. Defined.

(** Linux bit operations on one word. *)
Definition set_bit (nr : Z) (word : Z) : Z := Z.lor word (Z.shiftl 1 nr).

Fixpoint first_zero_from (word : Z) (i : Z) (n : nat) : Z :=
  match n with
  | O => i
  | S n' => if Z.testbit word i then first_zero_from word (i + 1) n' else i
  end.

(** The index of the lowest clear bit below [size], or [size]. *)
Definition find_first_zero_bit (word : Z) (size : Z) : Z :=
  first_zero_from word 0 (Z.to_nat size).

Definition got_first_map (client : ceph_client) (num : Z)
  : ceph_client * list event :=
  let client := set_mounting client (set_bit num (mounting client)) in
  if find_first_zero_bit (mounting client) 4 =? 3 then
    (set_mount_completion client (mount_completion client + 1),
     [EvGotFirstMap num; EvComplete])
  else (client, [EvGotFirstMap num]).

(** Successive calls of [got_first_map]. *)
Fixpoint got_first_maps (client : ceph_client) (nums : list Z)
  : ceph_client * list event :=
  match nums with
  | [] => (client, [])
  | n :: rest =>
      let (c1, e1) := got_first_map client n in
      let (c2, e2) := got_first_maps c1 rest in
      (c2, e1 ++ e2)
  end.

Definition non_null {A : Type} (p : option A) : bool :=
  match p with
  | Some _ => true
  | None => false
  end.

Section Dispatch.
Context {collab : Collaborators}.

Definition handle_monmap (client : ceph_client) (msg : ceph_msg)
  : ceph_client * list event :=
  let first := epoch (monmap (monc client)) =? 0 in
  match ceph_monmap_decode (front msg) with
  | ErrPtr e => (client, [EvDerrMonmap (PTR_ERR e)])
  | Ptr new =>
      let client :=
        set_monc client {| monmap := new;
                           monc_private := monc_private (monc client) |} in
      let client :=
        if first then
          set_identity client
                       (int_of_u32 (le32_to_cpu (name_num (hdr_dst_name msg))))
                       (hdr_dst_name msg)
        else client in
      (client, [EvKfreeMonmap])
  end.

Definition ceph_dispatch (client : ceph_client) (msg : ceph_msg)
  : ceph_client * list event :=
  let '(client, evs) :=
    match hdr_type msg with
    | CEPH_MSG_MON_MAP =>
        let had := negb (epoch (monmap (monc client)) =? 0) in
        let (client, ev) := handle_monmap client msg in
        if negb had && negb (epoch (monmap (monc client)) =? 0) then
          let (client, ev') := got_first_map client 0 in (client, ev ++ ev')
        else (client, ev)
    | CEPH_MSG_STATFS_REPLY =>
        (set_monc client (ceph_monc_handle_statfs_reply (monc client) msg), [])
    | CEPH_MSG_MDS_MAP =>
        let had := non_null (mdsmap (mdsc client)) in
        let client := set_mdsc client (ceph_mdsc_handle_map (mdsc client) msg) in
        if negb had && non_null (mdsmap (mdsc client)) then
          got_first_map client 1
        else (client, [])
    | CEPH_MSG_CLIENT_SESSION =>
        (set_mdsc client (ceph_mdsc_handle_session (mdsc client) msg), [])
    | CEPH_MSG_CLIENT_REPLY =>
        (set_mdsc client (ceph_mdsc_handle_reply (mdsc client) msg), [])
    | CEPH_MSG_CLIENT_REQUEST_FORWARD =>
        (set_mdsc client (ceph_mdsc_handle_forward (mdsc client) msg), [])
    | CEPH_MSG_CLIENT_FILECAPS =>
        (set_mdsc client (ceph_mdsc_handle_filecaps (mdsc client) msg), [])
    | CEPH_MSG_OSD_MAP =>
        let had := non_null (osdmap (osdc client)) in
        let client := set_osdc client (ceph_osdc_handle_map (osdc client) msg) in
        if negb had && non_null (osdmap (osdc client)) then
          got_first_map client 2
        else (client, [])
    | CEPH_MSG_OSD_OPREPLY =>
        (set_osdc client (ceph_osdc_handle_reply (osdc client) msg), [])
    | t => (client, [EvDerrUnknown t])
    end in
  (client, evs ++ [EvMsgPut]).
End Dispatch.

(** The message types that reach a [case] of the switch in [ceph_dispatch]. *)
Definition dispatched (t : msg_type) : bool :=
  match t with
  | CEPH_MSG_MON_MAP | CEPH_MSG_STATFS_REPLY | CEPH_MSG_MDS_MAP
  | CEPH_MSG_CLIENT_SESSION | CEPH_MSG_CLIENT_REPLY
  | CEPH_MSG_CLIENT_REQUEST_FORWARD | CEPH_MSG_CLIENT_FILECAPS
  | CEPH_MSG_OSD_MAP | CEPH_MSG_OSD_OPREPLY => true
  | _ => false
  end.

(** The three subsystems whose first map the mount waits for. *)
Inductive map_kind : Type := MonitorMap | MetadataMap | StorageMap.

Definition kind_num (k : map_kind) : Z :=
  match k with
  | MonitorMap => 0
  | MetadataMap => 1
  | StorageMap => 2
  end.

Definition kind_msg_type (k : map_kind) : msg_type :=
  match k with
  | MonitorMap => CEPH_MSG_MON_MAP
  | MetadataMap => CEPH_MSG_MDS_MAP
  | StorageMap => CEPH_MSG_OSD_MAP
  end.

(** The local copy of the map has been received: a non-zero monitor-map
    epoch, a non-NULL [mdsmap] or [osdmap]. *)
Definition map_present (k : map_kind) (client : ceph_client) : bool :=
  match k with
  | MonitorMap => negb (epoch (monmap (monc client)) =? 0)
  | MetadataMap => non_null (mdsmap (mdsc client))
  | StorageMap => non_null (osdmap (osdc client))
  end.

(** ** Vocabulary of the statements about [open_root_inode] *)

(** The reply is one [open_root_inode] goes on with: result code zero and a
    trace that is not empty. *)
Definition reply_usable (env : open_env) : bool :=
  (int_of_u32 (le32_to_cpu (head_result (oe_reply_info env))) =? 0)
  && negb (trace_nr (oe_reply_info env) =? 0).

(** The call obtains the root inode itself, from [ceph_get_inode]. *)
Definition allocates_root (env : open_env) (s_root0 : option dentry) : bool :=
  reply_usable env && negb (non_null s_root0) && (0 <=? fst (oe_get_inode env)).

(** The call gets past [ceph_get_inode], or finds a root entry to reuse. *)
Definition has_root (env : open_env) (s_root0 : option dentry) : bool :=
  reply_usable env && (non_null s_root0 || (0 <=? fst (oe_get_inode env))).

(** The local [mnt_inode] when a failure past the root step reaches
    [out2:]: still NULL when [d_alloc_root] has just failed, otherwise what
    [ceph_fill_trace] stored in it. *)
Definition mnt_inode_at_out2 (env : open_env) (s_root0 : option dentry)
  : option inode :=
  if negb (non_null s_root0) && negb (oe_d_alloc_root env) then None
  else snd (fst (oe_fill_trace env)).

Definition is_iput_root (e : res_event) : bool :=
  match e with EvIputRoot _ => true | _ => false end.

Definition is_iput_mnt (e : res_event) : bool :=
  match e with EvIputMnt _ => true | _ => false end.

Definition is_put_request (e : res_event) : bool :=
  match e with EvPutRequest _ => true | _ => false end.

(** ** Vocabulary of the statements about [ceph_mount] *)

(** Readiness is never achieved: every read of [client->mounting] finds a
    bit missing. *)
Definition never_ready (script : list attempt_env) : Prop :=
  Forall (fun a => 0 <= at_mounting_test a < 7 /\ 0 <= at_mounting_after a < 7)
         script.

(** No wait is interrupted. *)
Definition never_interrupted (script : list attempt_env) : Prop :=
  Forall (fun a => at_wait a <> - EINTR) script.

(** Every [ceph_msg_new] returns a message. *)
Definition always_allocated (script : list attempt_env) : Prop :=
  Forall (fun a => exists m, at_msg_new a = Ptr m) script.

(** The join request of one attempt: addressed to the monitor selected from
    that attempt's random byte. *)
Definition send_of (char_is_signed : bool) (args : ceph_mount_args)
    (a : attempt_env) : list mount_event :=
  match at_msg_new a with
  | Ptr m =>
      let which := select_mon char_is_signed (at_random a) (num_mon args) in
      [MountSend m (cpu_to_le32 which) (mon_addr_at args which)]
  | ErrPtr _ => []
  end.

(** ** Sample inputs *)

Definition three_monitors : ceph_mount_args :=
  {| num_mon := 3; mon_addr := [[10; 0; 0; 1]; [10; 0; 0; 2]; [10; 0; 0; 3]] |}.

(** An attempt that times out with no map received: random byte [b],
    message [m]. *)
Definition stalled_attempt (b m : Z) : attempt_env :=
  {| at_mounting_test := 0; at_random := b; at_msg_new := Ptr m;
     at_wait := 0; at_mounting_after := 0 |}.




Definition reply_with (result nr : Z) : ceph_mds_reply_info :=
  {| head_result := result; head_file_caps := 1; head_file_caps_seq := 1;
     trace_nr := nr; trace_in0_ino := 1 |}.

(** A metadata server that answers the OPEN of request 100 with [reply];
    [do_request] and [add_cap] are the results of [ceph_mdsc_do_request]
    and [ceph_add_cap]. *)
Definition open_env_with (do_request : Z) (reply : ceph_mds_reply_info)
    (alloc_root : bool) (add_cap : ptr_result Z) : open_env :=
  {| oe_create_request := Ptr 100;
     oe_do_request := do_request;
     oe_reply_info := reply;
     oe_get_inode := (0, 1);
     oe_d_alloc_root := alloc_root;
     oe_fill_trace := (0, Some 2, Some {| d_inode := Some 2 |});
     oe_add_cap := add_cap |}.

Definition good_open_env : open_env :=
  open_env_with 0 (reply_with 0 1) true (Ptr 7).

(** [ceph_mdsc_do_request] fails with [-EIO]. *)
Definition rpc_failure_env : open_env :=
  open_env_with (- EIO) (reply_with 0 1) true (Ptr 7).

(** The reply carries the result code -22. *)
Definition rejected_env : open_env :=
  open_env_with 0 (reply_with (2 ^ 32 - 22) 1) true (Ptr 7).

(** The reply reports success and an empty trace. *)
Definition empty_trace_env : open_env :=
  open_env_with 0 (reply_with 0 0) true (Ptr 7).

(** [ceph_add_cap] fails with [-ENOMEM]. *)
Definition cap_failure_env : open_env :=
  open_env_with 0 (reply_with 0 1) true (ErrPtr 12).

(** A creation that succeeds, and one whose messenger cannot be created. *)
Definition good_create_env : create_env :=
  {| ce_kzalloc := true;
     ce_messenger_create := Ptr {| name_type := 0; name_num := 0 |};
     ce_monc_init := (0, {| monmap := {| epoch := 0; monmap_body := [] |};
                            monc_private := [] |});
     ce_mdsc_init := {| mdsmap := None; mdsc_private := [] |};
     ce_osdc_init := {| osdmap := None; osdc_private := [] |} |}.

Definition failing_create_env : create_env :=
  {| ce_kzalloc := true;
     ce_messenger_create := ErrPtr 12;
     ce_monc_init := (0, {| monmap := {| epoch := 0; monmap_body := [] |};
                            monc_private := [] |});
     ce_mdsc_init := {| mdsmap := None; mdsc_private := [] |};
     ce_osdc_init := {| osdmap := None; osdc_private := [] |} |}.

(** Stand-ins for the subsystem clients: a monitor map is its epoch byte
    followed by its body and an empty buffer does not decode; the map
    handlers install the message body as the new map. *)
Definition sample_collaborators : Collaborators :=
  {| ceph_monmap_decode :=
       fun bytes =>
         match bytes with
         | [] => ErrPtr 22
         | e :: body => Ptr {| epoch := e; monmap_body := body |}
         end;
     ceph_monc_handle_statfs_reply := fun m _ => m;
     ceph_mdsc_handle_map :=
       fun m msg => {| mdsmap := Some (front msg);
                       mdsc_private := mdsc_private m |};
     ceph_mdsc_handle_session := fun m _ => m;
     ceph_mdsc_handle_reply := fun m _ => m;
     ceph_mdsc_handle_forward := fun m _ => m;
     ceph_mdsc_handle_filecaps := fun m _ => m;
     ceph_osdc_handle_map :=
       fun o msg => {| osdmap := Some (front msg);
                       osdc_private := osdc_private o |};
     ceph_osdc_handle_reply := fun o _ => o |}.

(** A client as [ceph_create_client] leaves it, no map received. *)
Definition fresh_client : ceph_client :=
  {| whoami := -1; mounting := 0; mount_completion := 0;
     monc := {| monmap := {| epoch := 0; monmap_body := [] |};
                monc_private := [] |};
     mdsc := {| mdsmap := None; mdsc_private := [] |};
     osdc := {| osdmap := None; osdc_private := [] |};
     msgr_inst_name := {| name_type := 0; name_num := 0 |};
     s_root := None |}.

(** A message of type [t] addressed to client 4242. *)
Definition msg_of (t : msg_type) (bytes : list Z) : ceph_msg :=
  {| hdr_type := t;
     hdr_dst_name := {| name_type := 8; name_num := 4242 |};
     front := bytes |}.

(** ** Names of message types *)

Definition ceph_msg_type_name (type : msg_type) : string :=
  match type with
  | CEPH_MSG_SHUTDOWN => "shutdown"
  | CEPH_MSG_PING => "ping"
  | CEPH_MSG_PING_ACK => "ping_ack"
  | CEPH_MSG_MON_MAP => "mon_map"
  | CEPH_MSG_CLIENT_MOUNT => "client_mount"
  | CEPH_MSG_CLIENT_UNMOUNT => "client_unmount"
  | CEPH_MSG_STATFS => "statfs"
  | CEPH_MSG_STATFS_REPLY => "statfs_reply"
  | CEPH_MSG_MDS_GETMAP => "mds_getmap"
  | CEPH_MSG_MDS_MAP => "mds_map"
  | CEPH_MSG_CLIENT_SESSION => "client_session"
  | CEPH_MSG_CLIENT_RECONNECT => "client_reconnect"
  | CEPH_MSG_CLIENT_REQUEST => "client_request"
  | CEPH_MSG_CLIENT_REQUEST_FORWARD => "client_request_forward"
  | CEPH_MSG_CLIENT_REPLY => "client_reply"
  | CEPH_MSG_CLIENT_FILECAPS => "client_filecaps"
  | CEPH_MSG_OSD_GETMAP => "osd_getmap"
  | CEPH_MSG_OSD_MAP => "osd_map"
  | CEPH_MSG_OSD_OP => "osd_op"
  | CEPH_MSG_OSD_OPREPLY => "osd_opreply"
  | CEPH_MSG_OTHER _ => "unknown"
  end%string.

(** ** Runs of messages and of mount attempts *)

(** Messages dispatched one after the other. *)
Fixpoint dispatch_all {collab : Collaborators} (client : ceph_client)
    (msgs : list ceph_msg) : ceph_client * list event :=
  match msgs with
  | [] => (client, [])
  | msg :: rest =>
      let (c1, e1) := ceph_dispatch client msg in
      let (c2, e2) := dispatch_all c1 rest in
      (c2, e1 ++ e2)
  end.

(** Monitor-map messages handled one after the other. *)
Definition handle_monmaps {collab : Collaborators} (client : ceph_client)
    (msgs : list ceph_msg) : ceph_client :=
  fold_left (fun c msg => fst (handle_monmap c msg)) msgs client.

(** The subsystem clients never lose a map they hold, and a map appears
    only through its own announcement: a decoded monitor map has a
    non-zero epoch, the map handlers keep a map that is there, and the
    other handlers leave the map pointers and the monitor map alone. *)
Definition keeps_maps (collab : Collaborators) : Prop :=
  (forall bytes new, ceph_monmap_decode bytes = Ptr new -> epoch new <> 0)
  /\ (forall m msg, monmap (ceph_monc_handle_statfs_reply m msg) = monmap m)
  /\ (forall m msg, non_null (mdsmap m) = true ->
                    non_null (mdsmap (ceph_mdsc_handle_map m msg)) = true)
  /\ (forall m msg, mdsmap (ceph_mdsc_handle_session m msg) = mdsmap m)
  /\ (forall m msg, mdsmap (ceph_mdsc_handle_reply m msg) = mdsmap m)
  /\ (forall m msg, mdsmap (ceph_mdsc_handle_forward m msg) = mdsmap m)
  /\ (forall m msg, mdsmap (ceph_mdsc_handle_filecaps m msg) = mdsmap m)
  /\ (forall o msg, non_null (osdmap o) = true ->
                    non_null (osdmap (ceph_osdc_handle_map o msg)) = true)
  /\ (forall o msg, osdmap (ceph_osdc_handle_reply o msg) = osdmap o).

(** The subsystem whose map a message of type [t] announces. *)
Definition announced (t : msg_type) : option map_kind :=
  match t with
  | CEPH_MSG_MON_MAP => Some MonitorMap
  | CEPH_MSG_MDS_MAP => Some MetadataMap
  | CEPH_MSG_OSD_MAP => Some StorageMap
  | _ => None
  end.

(** Bits 0..2 of [mounting] are exactly the maps that are there. *)
Definition bits_track_maps (c : ceph_client) : Prop :=
  0 <= mounting c < 8
  /\ forall k, Z.testbit (mounting c) (kind_num k) = map_present k c.

(** 1 when all three bits are set, 0 otherwise. *)
Definition all_ready (c : ceph_client) : Z :=
  if mounting c =? 7 then 1 else 0.

Definition map_kind_eq_dec (k k' : map_kind) : {k = k'} + {k <> k'}.
Proof. decide equality. Defined.

(** The attempt [a] ends the wait for the maps: the loop test already
    finds all three bits, or the attempt runs and finds them after its
    wait. *)
Definition sees_ready (a : attempt_env) : Prop :=
  7 <= at_mounting_test a
  \/ (0 <= at_mounting_test a < 7
      /\ (exists m, at_msg_new a = Ptr m)
      /\ at_wait a <> - EINTR
      /\ at_mounting_after a = 7).

(** The join request that attempt sends, if it gets that far. *)
Definition ready_send (sgn : bool) (args : ceph_mount_args) (a : attempt_env)
  : list mount_event :=
  if 7 <=? at_mounting_test a then [] else send_of sgn args a.

(** ** Further sample inputs *)

(** As [sample_collaborators], with every decoded monitor map given a
    non-zero epoch. *)
Definition steady_collaborators : Collaborators :=
  {| ceph_monmap_decode :=
       fun bytes =>
         match bytes with
         | [] => ErrPtr 22
         | e :: body => Ptr {| epoch := Z.abs e + 1; monmap_body := body |}
         end;
     ceph_monc_handle_statfs_reply := fun m _ => m;
     ceph_mdsc_handle_map :=
       fun m msg => {| mdsmap := Some (front msg);
                       mdsc_private := mdsc_private m |};
     ceph_mdsc_handle_session := fun m _ => m;
     ceph_mdsc_handle_reply := fun m _ => m;
     ceph_mdsc_handle_forward := fun m _ => m;
     ceph_mdsc_handle_filecaps := fun m _ => m;
     ceph_osdc_handle_map :=
       fun o msg => {| osdmap := Some (front msg);
                       osdc_private := osdc_private o |};
     ceph_osdc_handle_reply := fun o _ => o |}.

(** The reply carries the positive result code 3. *)
Definition positive_result_env : open_env :=
  open_env_with 0 (reply_with 3 1) true (Ptr 7).

(** An attempt whose wait is interrupted, and one after whose wait all
    three maps are there. *)
Definition interrupted_attempt (b m : Z) : attempt_env :=
  {| at_mounting_test := 0; at_random := b; at_msg_new := Ptr m;
     at_wait := - EINTR; at_mounting_after := 0 |}.

Definition ready_attempt (b m : Z) : attempt_env :=
  {| at_mounting_test := 3; at_random := b; at_msg_new := Ptr m;
     at_wait := 1; at_mounting_after := 7 |}.

(** * Properties *)

(** ** Integer helpers *)

Lemma wrap_int_small (z : Z) : INT_MIN <= z <= INT_MAX -> wrap_int z = z.
Proof.
  unfold INT_MIN, INT_MAX, wrap_int. intros Hz.
  rewrite Z.mod_small; lia.
Qed.

(** ** The shared work-queue counter *)

Lemma holders_app (a b : list counter_op) :
  forall h,
    holders h (a ++ b)
    = match holders h a with
      | Some h' => holders h' b
      | None => None
      end.
Proof.
  induction a as [|o a IH]; intros h; simpl; [reflexivity|].
  destruct o; [apply IH|].
  destruct h; [reflexivity | apply IH].
Qed.

Lemma peak_ge (ops : list counter_op) (h : nat) : (h <= peak h ops)%nat.
Proof.
  destruct ops as [|[] ops]; cbn [peak]; [lia | apply Nat.le_max_l ..].
Qed.

Lemma peak_after (a b : list counter_op) :
  forall h0 h,
    holders h0 a = Some h -> (peak h b <= peak h0 (a ++ b))%nat.
Proof.
  induction a as [|o a IH]; intros h0 h H; cbn [app peak holders] in *.
  - injection H as <-. lia.
  - destruct o.
    + apply IH in H. lia.
    + destruct h0 as [|h1]; [discriminate|]. apply IH in H.
      cbn [pred]. lia.
Qed.

Lemma peak_prefix (a b : list counter_op) :
  forall h, (peak h a <= peak h (a ++ b))%nat.
Proof.
  induction a as [|o a IH]; intros h; cbn [app peak].
  - apply peak_ge.
  - destruct o.
    + specialize (IH (S h)). lia.
    + specialize (IH (pred h)). lia.
Qed.

(** Along a well-bracketed order that never counts more than [INT_MAX]
    aggregates, the count is the number of holders. *)
Lemma counter_run_holders (ops : list counter_op) :
  forall h h',
    holders h ops = Some h' ->
    Z.of_nat (peak h ops) <= INT_MAX ->
    counter_run (Z.of_nat h) ops = Z.of_nat h'.
Proof.
  induction ops as [|o ops IH]; intros h h' H Hb;
    cbn [peak holders counter_run] in *.
  - injection H as <-. reflexivity.
  - unfold INT_MAX in *. destruct o; cbn [counter_step get_client_counter
                                           put_client_counter fst].
    + pose proof (peak_ge ops (S h)).
      rewrite wrap_int_small by (unfold INT_MIN, INT_MAX; lia).
      replace (Z.of_nat h + 1) with (Z.of_nat (S h)) by lia.
      apply IH; [assumption | lia].
    + destruct h as [|h]; [discriminate|].
      rewrite wrap_int_small by (unfold INT_MIN, INT_MAX; lia).
      replace (Z.of_nat (S h) - 1) with (Z.of_nat h) by lia.
      apply IH; [assumption | cbn [pred] in Hb; lia].
Qed.

Local Ltac count_edge :=
  intuition (try discriminate; try lia; try (f_equal; lia)).

(** The calls on the work queue at one step of a well-bracketed order. *)
Lemma count_edges_well_bracketed :
  forall (pre post : list counter_op) (o : counter_op),
    well_bracketed (pre ++ o :: post) ->
    Z.of_nat (peak 0 (pre ++ o :: post)) <= INT_MAX ->
    let n := counter_run 0 pre in
    let n' := fst (counter_step n o) in
    let ev := snd (counter_step n o) in
    holders 0 pre = Some (Z.to_nat n) /\ 0 <= n
    /\ holders 0 (pre ++ [o]) = Some (Z.to_nat n') /\ 0 <= n'
    /\ (In WorkqueueInit ev <-> n = 0 /\ n' = 1)
    /\ (In WorkqueueShutdown ev <-> n = 1 /\ n' = 0)
    /\ (In WorkqueueShutdown ev -> holders 0 (pre ++ [o]) = Some O).
Proof.
  intros pre post o [hf Hwb] Hpeak n n' ev.
  rewrite holders_app in Hwb.
  destruct (holders 0 pre) as [h|] eqn:Hpre; [|discriminate].
  pose proof (peak_prefix pre (o :: post) 0%nat) as Hp1.
  pose proof (peak_after pre (o :: post) 0%nat h Hpre) as Hp2.
  pose proof (peak_ge (o :: post) h) as Hp3.
  assert (Hn : n = Z.of_nat h).
  { subst n. apply (counter_run_holders pre 0 h Hpre). lia. }
  rewrite holders_app, Hpre.
  subst n' ev. rewrite Hn. unfold INT_MAX in *.
  destruct o; cbn [peak pred holders counter_step get_client_counter
                     put_client_counter fst snd] in *.
  - pose proof (peak_ge post (S h)).
    rewrite wrap_int_small by (unfold INT_MIN, INT_MAX; lia).
    rewrite Nat2Z.id.
    replace (Z.to_nat (Z.of_nat h + 1)) with (S h) by lia.
    destruct (Z.eqb_spec (Z.of_nat h) 0) as [E|E]; simpl;
      repeat (split; [solve [reflexivity | lia | count_edge] |]);
      count_edge.
  - destruct h as [|h]; [discriminate|].
    rewrite wrap_int_small by (unfold INT_MIN, INT_MAX; lia).
    rewrite Nat2Z.id.
    replace (Z.of_nat (S h) - 1) with (Z.of_nat h) by lia.
    rewrite Nat2Z.id.
    destruct (Z.eqb_spec (Z.of_nat h) 0) as [E|E]; simpl;
      repeat (split; [solve [reflexivity | lia | count_edge] |]);
      count_edge.
Qed.

Lemma lifetime_ops_rest (life : create_env * bool) :
  lifetime_rest (lifetime_ops life) /\ owed (lifetime_ops life) = O.
Proof.
  destruct life as [env destroyed].
  unfold lifetime_ops, lifetime_rest, create_ops, created. simpl.
  destruct (ce_kzalloc env); simpl; [|auto].
  destruct (ce_messenger_create env); simpl; [|auto].
  destruct (fst (ce_monc_init env) <? 0); simpl; [auto|].
  destruct destroyed; simpl; auto.
Qed.

Lemma list_sum_middle (f : list counter_op -> nat)
    (before after : list (list counter_op)) (t : list counter_op) :
  list_sum (map f (before ++ t :: after))
  = (list_sum (map f before) + f t + list_sum (map f after))%nat.
Proof. rewrite map_app, list_sum_app. simpl. lia. Qed.

(** Every interleaving of what is left of aggregates' lifetimes can be
    run from any number of holders that covers the counts owed. *)
Lemma interleaving_holders (threads : list (list counter_op))
    (ops : list counter_op) :
  interleaving threads ops ->
  Forall lifetime_rest threads ->
  forall h, (list_sum (map owed threads) <= h)%nat ->
            exists h', holders h ops = Some h'.
Proof.
  induction 1 as [threads Hnil | before o t after ops Hint IH];
    intros Hshape h Hsum.
  - exists h. reflexivity.
  - apply Forall_app in Hshape. destruct Hshape as [Hb Hrest].
    inversion Hrest as [|? ? Hot Ha]; subst.
    rewrite list_sum_middle in Hsum.
    assert (Hkeep : forall t', lifetime_rest t' ->
                               Forall lifetime_rest (before ++ t' :: after)).
    { intros t' Ht'. apply Forall_app. split; [assumption|].
      constructor; assumption. }
    destruct Hot as [E|[E|[E|E]]]; try discriminate;
      injection E as -> ->; simpl.
    + (* [Acquire] *)
      apply IH; [apply Hkeep; left; reflexivity|].
      rewrite list_sum_middle. simpl in *. lia.
    + (* [Acquire; Release] *)
      apply IH; [apply Hkeep; right; right; right; reflexivity|].
      rewrite list_sum_middle. simpl in *. lia.
    + (* [Release] *)
      simpl in Hsum. destruct h as [|h]; [lia|].
      apply IH; [apply Hkeep; left; reflexivity|].
      rewrite list_sum_middle. simpl. lia.
Qed.

(** Every interleaving of aggregates' lifetimes is well bracketed. *)
Lemma interleaving_well_bracketed (lives : list (create_env * bool))
    (ops : list counter_op) :
  interleaving (map lifetime_ops lives) ops -> well_bracketed ops.
Proof.
  intros Hint. apply (interleaving_holders _ _ Hint).
  - apply Forall_forall. intros t Hin. apply in_map_iff in Hin.
    destruct Hin as [life [<- _]]. apply lifetime_ops_rest.
  - assert (Hz : list_sum (map owed (map lifetime_ops lives)) = O).
    { clear Hint. induction lives as [|life lives IHl]; [reflexivity|].
      simpl. rewrite (proj2 (lifetime_ops_rest life)), IHl. reflexivity. }
    lia.
Qed.

(** On the counter, [ceph_create_client] is the run of [create_ops] and
    [ceph_destroy_client] one release. *)
Lemma create_client_counter (env : create_env) (sb : option dentry) (n : Z) :
  snd (fst (ceph_create_client env sb n)) = counter_run n (create_ops env)
  /\ (created env = true <-> exists cl, fst (fst (ceph_create_client env sb n))
                                        = Ptr cl).
Proof.
  unfold ceph_create_client, create_ops, created, ERR_PTR.
  destruct (ce_kzalloc env); simpl.
  2:{ split; [reflexivity|]. split; [discriminate|].
      intros [cl H]. discriminate. }
  destruct (ce_messenger_create env) as [nm|e]; simpl.
  2:{ split; [reflexivity|]. split; [discriminate|].
      intros [cl H]. discriminate. }
  destruct (ce_monc_init env) as [err monc0]. simpl.
  destruct (err <? 0); simpl.
  - split; [reflexivity|]. split; [discriminate|].
    intros [cl H]. discriminate.
  - split; [reflexivity|]. split; [eauto | reflexivity].
Qed.

Lemma destroy_client_counter (cl : ceph_client) (n : Z) :
  fst (ceph_destroy_client cl n) = counter_run n [Release]
  /\ snd (ceph_destroy_client cl n) = snd (counter_step n Release).
Proof. split; reflexivity. Qed.

(** C9.  Take any interleaving of the critical sections entered for any
    number of aggregates (each one: its creation, with the rollback when
    the creation fails, and its destruction if it is destroyed), in which
    no more than [INT_MAX] aggregates are ever counted at once.  At every
    step [o] of it, with [n] the count before and [n'] the count after:
    the count equals the number of aggregates holding one and is never
    negative; [ceph_workqueue_init] is called exactly when the count goes
    0 to 1; [ceph_workqueue_shutdown] is called exactly when it goes 1 to
    0, so never while an aggregate is still counted. *)
Theorem workqueue_calls_on_count_edges :
  forall (lives : list (create_env * bool)) (pre post : list counter_op)
         (o : counter_op),
    interleaving (map lifetime_ops lives) (pre ++ o :: post) ->
    Z.of_nat (peak 0 (pre ++ o :: post)) <= INT_MAX ->
    let n := counter_run 0 pre in
    let n' := fst (counter_step n o) in
    let ev := snd (counter_step n o) in
    holders 0 pre = Some (Z.to_nat n) /\ 0 <= n
    /\ holders 0 (pre ++ [o]) = Some (Z.to_nat n') /\ 0 <= n'
    /\ (In WorkqueueInit ev <-> n = 0 /\ n' = 1)
    /\ (In WorkqueueShutdown ev <-> n = 1 /\ n' = 0)
    /\ (In WorkqueueShutdown ev -> holders 0 (pre ++ [o]) = Some O).
Proof.
  intros lives pre post o Hint Hpeak.
  apply (count_edges_well_bracketed pre post o); [|exact Hpeak].
  exact (interleaving_well_bracketed lives _ Hint).
Qed.

(** ** Opening the root directory *)

Lemma int_of_u32_neg22 : int_of_u32 (le32_to_cpu (2 ^ 32 - 22)) = -22.
Proof. reflexivity. Qed.

(** When [ceph_mdsc_do_request] fails, its code is returned and no call is
    made on the request. *)
Lemma open_root_rpc_failure (env : open_env) (s0 p0 : option dentry) (req : Z) :
  oe_create_request env = Ptr req ->
  oe_do_request env < 0 ->
  or_ret (open_root_inode env s0 p0) = Return (oe_do_request env)
  /\ or_events (open_root_inode env s0 p0) = [].
Proof.
  intros Hreq Hneg. unfold open_root_inode. rewrite Hreq.
  destruct (Z.ltb_spec (oe_do_request env) 0); [|lia].
  split; reflexivity.
Qed.

(** When the reply carries a non-zero result code, that code is returned
    and the request is put, once. *)
Lemma open_root_rejected (env : open_env) (s0 p0 : option dentry) (req : Z) :
  oe_create_request env = Ptr req ->
  0 <= oe_do_request env ->
  int_of_u32 (le32_to_cpu (head_result (oe_reply_info env))) <> 0 ->
  or_ret (open_root_inode env s0 p0)
  = Return (int_of_u32 (le32_to_cpu (head_result (oe_reply_info env))))
  /\ or_events (open_root_inode env s0 p0) = [EvPutRequest req].
Proof.
  intros Hreq Hge Hres. unfold open_root_inode. rewrite Hreq.
  destruct (Z.ltb_spec (oe_do_request env) 0); [lia|].
  destruct (Z.eqb_spec
              (int_of_u32 (le32_to_cpu (head_result (oe_reply_info env)))) 0);
    [contradiction|].
  split; reflexivity.
Qed.

(** C4.  With [ceph_mdsc_do_request] failing with -5 on request 100,
    [open_root_inode] returns -5 and has made no call at all: the request
    it created is not put.  On the sibling path, a reply carrying -22,
    it returns -22 and puts the request. *)
Theorem open_root_rpc_failure_keeps_request :
  open_root_inode rpc_failure_env None None
  = {| or_ret := Return (-5); or_alloc_fs := false; or_s_root := None;
       or_pmnt_root := None; or_events := [] |}
  /\ or_ret (open_root_inode rejected_env None None) = Return (-22)
  /\ or_events (open_root_inode rejected_env None None) = [EvPutRequest 100].
Proof. repeat split; reflexivity. Qed.

(** C7.  When the request went through, the reply's result code is zero
    and its trace has no entry, [open_root_inode] returns [-EINVAL] (after
    putting the request); and whenever it returns 0, the trace has at least
    one entry. *)
Theorem open_root_empty_trace_is_einval :
  forall (env : open_env) (s0 p0 : option dentry),
    0 <= trace_nr (oe_reply_info env) ->
    (forall req,
        oe_create_request env = Ptr req ->
        0 <= oe_do_request env ->
        int_of_u32 (le32_to_cpu (head_result (oe_reply_info env))) = 0 ->
        trace_nr (oe_reply_info env) = 0 ->
        or_ret (open_root_inode env s0 p0) = Return (- EINVAL)
        /\ or_events (open_root_inode env s0 p0) = [EvPutRequest req])
    /\ (or_ret (open_root_inode env s0 p0) = Return 0 ->
        1 <= trace_nr (oe_reply_info env)).
Proof.
  intros env s0 p0 Hnr. split.
  - intros req Hreq Hge Hres Htr. unfold open_root_inode.
    rewrite Hreq, Hres, Htr.
    destruct (Z.ltb_spec (oe_do_request env) 0); [lia|].
    split; reflexivity.
  - unfold open_root_inode, fill_and_bind, out2, out, PTR_ERR.
    destruct (oe_create_request env) as [req|e]; simpl; [|discriminate].
    destruct (Z.ltb_spec (oe_do_request env) 0) as [Hlt|Hge]; simpl.
    { intros [= H0]. lia. }
    destruct (Z.eqb_spec
                (int_of_u32 (le32_to_cpu (head_result (oe_reply_info env)))) 0)
      as [Hres|Hres]; simpl.
    2:{ intros [= H0]. contradiction. }
    destruct (Z.eqb_spec (trace_nr (oe_reply_info env)) 0) as [Htr|Htr]; simpl.
    { discriminate. }
    intros _. lia.
Qed.

Local Ltac split_ifs :=
  repeat match goal with
         | |- context [if ?b then _ else _] => destruct b eqn:?; simpl
         | |- context [match ?x with Ptr _ => _ | ErrPtr _ => _ end] =>
             destruct x eqn:?; simpl
         | |- context [match ?x with Some _ => _ | None => _ end] =>
             destruct x eqn:?; simpl
         end.

(** C6.  Let [open_root_inode] fail (return a non-zero code) after the
    reply was received.  Then [alloc_fs] is set exactly when this call
    obtained the root inode from [ceph_get_inode]; [iput(root_inode)] is
    called, once and on that inode, exactly when [alloc_fs] is set; a root
    entry that existed before the call is never released; whenever the call
    got as far as having a root inode, [iput(mnt_inode)] is called exactly
    once, on the inode [ceph_fill_trace] stored in [mnt_inode] (on NULL
    when the failure is that of [d_alloc_root], before [ceph_fill_trace]);
    and the request is put exactly once. *)
Theorem open_root_failure_cleanup :
  forall (env : open_env) (s0 p0 : option dentry) (req err : Z),
    oe_create_request env = Ptr req ->
    0 <= oe_do_request env ->
    or_ret (open_root_inode env s0 p0) = Return err ->
    err <> 0 ->
    let r := open_root_inode env s0 p0 in
    or_alloc_fs r = allocates_root env s0
    /\ filter is_iput_root (or_events r)
       = (if or_alloc_fs r then [EvIputRoot (snd (oe_get_inode env))] else [])
    /\ (s0 <> None -> filter is_iput_root (or_events r) = [])
    /\ (has_root env s0 = true ->
        filter is_iput_mnt (or_events r)
        = [EvIputMnt (mnt_inode_at_out2 env s0)])
    /\ (has_root env s0 = false -> filter is_iput_mnt (or_events r) = [])
    /\ filter is_put_request (or_events r) = [EvPutRequest req].
Proof.
  intros env s0 p0 req err Hreq Hge Hret Herr r. subst r. revert Hret.
  unfold open_root_inode, allocates_root, has_root, reply_usable,
    mnt_inode_at_out2.
  rewrite Hreq.
  destruct (Z.ltb_spec (oe_do_request env) 0) as [|_]; [lia|].
  destruct (int_of_u32 (le32_to_cpu (head_result (oe_reply_info env))) =? 0)
    eqn:Hres; simpl.
  2:{ intros _. repeat split; try reflexivity; discriminate. }
  destruct (trace_nr (oe_reply_info env) =? 0) eqn:Htr; simpl.
  { intros _. repeat split; try reflexivity; discriminate. }
  destruct s0 as [d|]; simpl.
  - destruct (d_inode d) as [root_inode|]; [|discriminate].
    unfold fill_and_bind, out2, out.
    destruct (oe_fill_trace env) as [[ferr mnt] pmnt].
    split_ifs; intros Hret;
      try (injection Hret as Hret; congruence);
      repeat split; try reflexivity; try discriminate.
  - destruct (oe_get_inode env) as [gerr root_inode]; simpl.
    destruct (Z.ltb_spec gerr 0) as [Hg|Hg];
      destruct (Z.leb_spec 0 gerr) as [Hg'|Hg']; try lia; simpl.
    { intros _. repeat split; try reflexivity; discriminate. }
    unfold fill_and_bind, out2, out.
    destruct (oe_fill_trace env) as [[ferr mnt] pmnt].
    destruct (oe_d_alloc_root env); simpl;
      split_ifs; intros Hret;
      try (injection Hret as Hret; congruence);
      repeat split; try reflexivity; try discriminate; try congruence.
Qed.

(** ** The mount loop *)







(** ** Selecting a monitor *)

Lemma count_residue_step (n i M : Z) :
  0 <= i < n -> 0 <= M ->
  (M + 1) / n + (if i <? (M + 1) mod n then 1 else 0)
  = M / n + (if i <? M mod n then 1 else 0) + (if M mod n =? i then 1 else 0).
Proof.
  intros Hi HM.
  assert (Hn : 0 < n) by lia.
  pose proof (Z.div_mod M n ltac:(lia)) as Hdm.
  pose proof (Z.mod_pos_bound M n Hn) as Hr.
  set (q := M / n) in *. set (r := M mod n) in *.
  destruct (Z.eq_dec (r + 1) n) as [E|E].
  - rewrite <- (Z.div_unique (M + 1) n (q + 1) 0) by lia.
    rewrite <- (Z.mod_unique (M + 1) n (q + 1) 0) by lia.
    destruct (Z.ltb_spec i 0); [lia|].
    destruct (Z.ltb_spec i r); destruct (Z.eqb_spec r i); lia.
  - rewrite <- (Z.div_unique (M + 1) n q (r + 1)) by lia.
    rewrite <- (Z.mod_unique (M + 1) n q (r + 1)) by lia.
    destruct (Z.ltb_spec i (r + 1)); destruct (Z.ltb_spec i r);
      destruct (Z.eqb_spec r i); lia.
Qed.

(** Among [0 .. M-1], the numbers congruent to [i] modulo [n]. *)
Lemma count_residue (n i : Z) :
  0 <= i < n ->
  forall M : nat,
    Z.of_nat (length (filter (fun b => b mod n =? i)
                             (map Z.of_nat (seq 0 M))))
    = Z.of_nat M / n + (if i <? Z.of_nat M mod n then 1 else 0).
Proof.
  intros Hi. induction M as [|M IH].
  - cbn [seq map filter length Z.of_nat].
    rewrite Z.div_0_l, Z.mod_0_l by lia.
    destruct (Z.ltb_spec i 0); lia.
  - rewrite seq_S, map_app, filter_app, length_app, Nat2Z.inj_add, IH.
    rewrite Nat2Z.inj_succ, <- Z.add_1_r.
    rewrite (count_residue_step n i (Z.of_nat M)) by lia.
    simpl. destruct (Z.of_nat M mod n =? i); reflexivity.
Qed.

Lemma nonneg_bytes_range (sgn : bool) :
  nonneg_bytes sgn = map Z.of_nat (seq 0 (if sgn then 128 else 256)).
Proof. destruct sgn; vm_compute; reflexivity. Qed.

Lemma In_all_bytes (b : Z) : In b all_bytes -> 0 <= b < 256.
Proof.
  unfold all_bytes. rewrite in_map_iff. intros [k [<- Hk]].
  apply in_seq in Hk. lia.
Qed.

Lemma char_of_byte_nonneg (sgn : bool) (b : Z) :
  0 <= b < 256 -> 0 <= char_of_byte sgn b -> char_of_byte sgn b = b.
Proof.
  unfold char_of_byte. intros Hb.
  destruct sgn; cbn [andb]; [|reflexivity].
  destruct (Z.leb_spec 128 b); lia.
Qed.

Lemma select_mon_nonneg (sgn : bool) (num_mon b : Z) :
  1 <= num_mon ->
  In b (nonneg_bytes sgn) ->
  select_mon sgn b num_mon = b mod num_mon.
Proof.
  intros Hn. unfold nonneg_bytes. rewrite filter_In. intros [Hall Hpos].
  apply In_all_bytes in Hall. apply Z.leb_le in Hpos.
  unfold select_mon, c_rem.
  rewrite (char_of_byte_nonneg sgn b Hall Hpos).
  apply Z.rem_mod_nonneg; lia.
Qed.

(** C8, as amended.  For every [num_mon >= 1] and either signedness of
    [char]: on the [M] byte values whose [char] is not negative (all 256
    when [char] is unsigned, 0..127 when it is signed) the selection
    [r % num_mon] lies in [0, num_mon); monitor [i] is selected by exactly
    [M / num_mon] of them, plus one when [i < M mod num_mon]; so the
    monitors are equally likely when [num_mon] divides [M]. *)
Theorem select_mon_on_nonneg_bytes :
  forall (sgn : bool) (num_mon : Z),
    1 <= num_mon ->
    let M := if sgn then 128 else 256 in
    Z.of_nat (length (nonneg_bytes sgn)) = M
    /\ (forall b, In b (nonneg_bytes sgn) ->
                  0 <= select_mon sgn b num_mon < num_mon)
    /\ (forall i, 0 <= i < num_mon ->
                  selecting sgn num_mon i (nonneg_bytes sgn)
                  = M / num_mon + (if i <? M mod num_mon then 1 else 0))
    /\ (M mod num_mon = 0 ->
        forall i j, 0 <= i < num_mon -> 0 <= j < num_mon ->
                    selecting sgn num_mon i (nonneg_bytes sgn)
                    = selecting sgn num_mon j (nonneg_bytes sgn)).
Proof.
  intros sgn num_mon Hn M.
  assert (Hcount : forall i, 0 <= i < num_mon ->
            selecting sgn num_mon i (nonneg_bytes sgn)
            = M / num_mon + (if i <? M mod num_mon then 1 else 0)).
  { intros i Hi. unfold selecting.
    rewrite (filter_ext_in
               (fun b => select_mon sgn b num_mon =? i)
               (fun b => b mod num_mon =? i)).
    - rewrite nonneg_bytes_range, (count_residue num_mon i Hi).
      subst M. destruct sgn; reflexivity.
    - intros b Hb. rewrite (select_mon_nonneg sgn num_mon b Hn Hb).
      reflexivity. }
  split; [|split; [|split]].
  - subst M. destruct sgn; reflexivity.
  - intros b Hb. rewrite (select_mon_nonneg sgn num_mon b Hn Hb).
    apply Z.mod_pos_bound. lia.
  - exact Hcount.
  - intros Hdiv i j Hi Hj. rewrite (Hcount i Hi), (Hcount j Hj), Hdiv.
    destruct (Z.ltb_spec i 0); destruct (Z.ltb_spec j 0); lia.
Qed.

Lemma select_mon_on_nonneg_bytes_witness :
  1 <= 3
  /\ selecting true 3 0 (nonneg_bytes true) = 43
  /\ selecting true 3 2 (nonneg_bytes true) = 42.
Proof.
  assert (H3 : 1 <= 3) by lia.
  destruct (select_mon_on_nonneg_bytes true 3 H3) as [_ [_ [Hc _]]].
  split; [exact H3|]. split.
  - rewrite (Hc 0) by lia. reflexivity.
  - rewrite (Hc 2) by lia. reflexivity.
Defined.

(** C8, counterexample.  With three monitors the selection is not uniform,
    whichever the signedness of [char]: of the 256 byte values, unsigned,
    86 select monitor 0 and 85 monitor 2; signed, 85 select monitor 0 and
    42 monitor 2, and byte 255 selects index -1. *)
Lemma uniform_selection_fails :
  ~ uniform_selection false 3
  /\ ~ uniform_selection true 3
  /\ selecting false 3 0 all_bytes = 86
  /\ selecting false 3 2 all_bytes = 85
  /\ selecting true 3 0 all_bytes = 85
  /\ selecting true 3 2 all_bytes = 42
  /\ select_mon true 255 3 = -1.
Proof.
  split; [|split].
  - intros [_ H]. specialize (H 0 2 ltac:(lia) ltac:(lia)).
    vm_compute in H. discriminate.
  - intros [_ H]. specialize (H 0 2 ltac:(lia) ltac:(lia)).
    vm_compute in H. discriminate.
  - repeat split; vm_compute; reflexivity.
Qed.

(** ** The first-map tracker *)

(** A created client has no readiness bit set, no completion signalled and
    no identity. *)
Lemma create_client_fresh (env : create_env) (sb : option dentry) (n : Z)
    (cl : ceph_client) :
  fst (fst (ceph_create_client env sb n)) = Ptr cl ->
  mounting cl = 0 /\ mount_completion cl = 0 /\ whoami cl = -1.
Proof.
  unfold ceph_create_client, ERR_PTR.
  destruct (ce_kzalloc env); simpl; [|discriminate].
  destruct (ce_messenger_create env) as [nm|e]; simpl; [|discriminate].
  destruct (ce_monc_init env) as [err monc0].
  destruct (err <? 0); simpl; [discriminate|].
  intros [= <-]. repeat split; reflexivity.
Qed.

Lemma low_word_cases (m : Z) :
  0 <= m < 8 ->
  m = 0 \/ m = 1 \/ m = 2 \/ m = 3 \/ m = 4 \/ m = 5 \/ m = 6 \/ m = 7.
Proof. lia. Qed.

Lemma low_bit_cases (n : Z) : 0 <= n <= 2 -> n = 0 \/ n = 1 \/ n = 2.
Proof. lia. Qed.

Local Ltac by_cases_word m H :=
  let C := fresh in
  pose proof (low_word_cases m H) as C;
  repeat (destruct C as [C|C]; [subst m|]); try subst m.

Local Ltac by_cases_bit n H :=
  let C := fresh in
  pose proof (low_bit_cases n H) as C;
  repeat (destruct C as [C|C]; [subst n|]); try subst n.

(** On a word with bits 0..2 only, the scan of four bits stops at 3 exactly
    when the word is 7. *)
Lemma find_first_zero_bit_low (m : Z) :
  0 <= m < 8 -> (find_first_zero_bit m 4 =? 3) = (m =? 7).
Proof. intros H. by_cases_word m H; reflexivity. Qed.

Lemma set_bit_low (n m : Z) :
  0 <= n <= 2 -> 0 <= m < 8 -> 0 <= set_bit n m < 8.
Proof.
  intros Hn Hm. by_cases_bit n Hn; by_cases_word m Hm; vm_compute;
    split; congruence.
Qed.

Lemma set_bit_testbit (n m k : Z) :
  0 <= n -> 0 <= k ->
  Z.testbit (set_bit n m) k = Z.testbit m k || (k =? n).
Proof.
  intros Hn Hk. unfold set_bit.
  rewrite Z.lor_spec, Z.shiftl_1_l, Z.pow2_bits_eqb by lia.
  rewrite (Z.eqb_sym n k). reflexivity.
Qed.

Lemma low_word_full (m : Z) :
  0 <= m < 8 ->
  (m = 7 <-> Z.testbit m 0 = true /\ Z.testbit m 1 = true
             /\ Z.testbit m 2 = true).
Proof.
  intros H. by_cases_word m H; vm_compute; intuition congruence.
Qed.

Lemma mounting_got_first_map (c : ceph_client) (n : Z) :
  mounting (fst (got_first_map c n)) = set_bit n (mounting c).
Proof.
  unfold got_first_map. cbn [mounting set_mounting].
  destruct (find_first_zero_bit (set_bit n (mounting c)) 4 =? 3); reflexivity.
Qed.

(** One call: [complete] is invoked exactly when the word becomes 7, and
    the [done] count moves accordingly. *)
Lemma got_first_map_complete (c : ceph_client) (n : Z) :
  0 <= n <= 2 -> 0 <= mounting c < 8 ->
  let c' := fst (got_first_map c n) in
  let ev := snd (got_first_map c n) in
  (In EvComplete ev <-> mounting c' = 7)
  /\ ev = EvGotFirstMap n :: (if mounting c' =? 7 then [EvComplete] else [])
  /\ mount_completion c'
     = mount_completion c + (if mounting c' =? 7 then 1 else 0).
Proof.
  intros Hn Hm c' ev. subst c' ev.
  rewrite mounting_got_first_map.
  pose proof (set_bit_low n (mounting c) Hn Hm) as Hb.
  unfold got_first_map. cbn [mounting set_mounting].
  rewrite (find_first_zero_bit_low _ Hb).
  destruct (Z.eqb_spec (set_bit n (mounting c)) 7) as [E|E]; simpl.
  - repeat split; auto.
  - repeat split; try lia; try tauto.
    intros [H|[]]; discriminate.
Qed.

Lemma got_first_maps_app (a b : list Z) :
  forall c,
    got_first_maps c (a ++ b)
    = (fst (got_first_maps (fst (got_first_maps c a)) b),
       snd (got_first_maps c a)
           ++ snd (got_first_maps (fst (got_first_maps c a)) b)).
Proof.
  induction a as [|n a IH]; intros c; simpl.
  - destruct (got_first_maps c b); reflexivity.
  - destruct (got_first_map c n) as [c1 e1].
    rewrite IH. simpl.
    destruct (got_first_maps c1 a) as [c2 e2]. simpl.
    rewrite app_assoc. reflexivity.
Qed.

(** After a run of calls the word has bits 0..2 only, and bit [k] is set
    exactly when it was set before or [k] was reported. *)
Lemma got_first_maps_bits (nums : list Z) :
  forall c,
    0 <= mounting c < 8 ->
    Forall (fun n => 0 <= n <= 2) nums ->
    0 <= mounting (fst (got_first_maps c nums)) < 8
    /\ forall k, 0 <= k ->
         Z.testbit (mounting (fst (got_first_maps c nums))) k
         = Z.testbit (mounting c) k || existsb (Z.eqb k) nums.
Proof.
  induction nums as [|n nums IH]; intros c Hm Hr; simpl.
  - split; [assumption|]. intros k _. rewrite orb_false_r. reflexivity.
  - inversion Hr as [|? ? Hn Hr']; subst.
    pose proof (mounting_got_first_map c n) as Hset.
    destruct (got_first_map c n) as [c1 e1]. simpl in Hset.
    assert (Hm1 : 0 <= mounting c1 < 8)
      by (rewrite Hset; apply set_bit_low; assumption).
    destruct (IH c1 Hm1 Hr') as [Hb Hbits].
    destruct (got_first_maps c1 nums) as [c2 e2]. simpl in *.
    split; [assumption|]. intros k Hk.
    rewrite (Hbits k Hk), Hset, set_bit_testbit by lia.
    rewrite orb_assoc. reflexivity.
Qed.

Lemma existsb_eqb_false (k : Z) (l : list Z) :
  ~ In k l -> existsb (Z.eqb k) l = false.
Proof.
  intros H. destruct (existsb (Z.eqb k) l) eqn:E; [|reflexivity].
  apply existsb_exists in E. destruct E as [x [Hin Hx]].
  apply Z.eqb_eq in Hx. subst x. contradiction.
Qed.

(** In a run without repetition whose numbers are not yet marked,
    [complete] is invoked at most once. *)
Lemma got_first_maps_complete_once (nums : list Z) :
  forall c,
    0 <= mounting c < 8 ->
    NoDup nums ->
    Forall (fun n => 0 <= n <= 2) nums ->
    (forall n, In n nums -> Z.testbit (mounting c) n = false) ->
    (count_occ event_eq_dec (snd (got_first_maps c nums)) EvComplete <= 1)%nat.
Proof.
  induction nums as [|n nums IH]; intros c Hm Hnd Hr Hclear; simpl.
  - lia.
  - inversion Hr as [|? ? Hn Hr']; subst.
    inversion Hnd as [|? ? Hnotin Hnd']; subst.
    pose proof (got_first_map_complete c n Hn Hm) as [_ [Hev _]].
    pose proof (mounting_got_first_map c n) as Hset.
    destruct (got_first_map c n) as [c1 e1]. simpl in Hev, Hset.
    assert (Hm1 : 0 <= mounting c1 < 8)
      by (rewrite Hset; apply set_bit_low; assumption).
    assert (Hclear1 : forall n', In n' nums ->
                                 Z.testbit (mounting c1) n' = false).
    { intros n' Hin. rewrite Forall_forall in Hr'.
      pose proof (Hr' n' Hin) as Hn'.
      rewrite Hset, set_bit_testbit by lia.
      rewrite (Hclear n' (or_intror Hin)). simpl.
      apply Z.eqb_neq. intros ->. contradiction. }
    specialize (IH c1 Hm1 Hnd' Hr' Hclear1).
    destruct (Z.eqb_spec (mounting c1) 7) as [E|E].
    + (* the word is full: nothing is left to report *)
      destruct nums as [|n' nums'].
      * simpl. subst e1. rewrite app_nil_r. simpl.
        destruct (event_eq_dec (EvGotFirstMap n) EvComplete); [discriminate|].
        destruct (event_eq_dec EvComplete EvComplete); simpl; lia.
      * exfalso. pose proof (Hclear1 n' (or_introl eq_refl)) as Hc.
        rewrite Forall_forall in Hr'.
        pose proof (Hr' n' (or_introl eq_refl)) as Hn'.
        rewrite E in Hc. by_cases_bit n' Hn'; vm_compute in Hc; discriminate.
    + destruct (got_first_maps c1 nums) as [c2 e2]. simpl in *.
      subst e1. simpl.
      destruct (event_eq_dec (EvGotFirstMap n) EvComplete); [discriminate|].
      exact IH.
Qed.

(** C2.  Start from a client whose [mounting] word is 0 and make calls
    [got_first_map(client, n)] with every [n] in 0..2 passed at most once.
    At each call: [complete] is invoked exactly when the word goes from a
    value other than 7 to 7; that is the call after which all of 0, 1, 2
    have been reported; the [done] count of the completion moves by one
    then and not otherwise; and over the whole run [complete] is invoked
    at most once. *)
Theorem complete_fires_on_last_bit :
  forall (client : ceph_client) (pre post : list Z) (num : Z),
    mounting client = 0 ->
    NoDup (pre ++ num :: post) ->
    Forall (fun n => 0 <= n <= 2) (pre ++ num :: post) ->
    let c1 := fst (got_first_maps client pre) in
    let c2 := fst (got_first_map c1 num) in
    let ev := snd (got_first_map c1 num) in
    (In EvComplete ev <-> mounting c1 <> 7 /\ mounting c2 = 7)
    /\ (In EvComplete ev <-> forall k, 0 <= k <= 2 -> In k (pre ++ [num]))
    /\ mount_completion c2
       = mount_completion c1 + (if mounting c2 =? 7 then 1 else 0)
    /\ (count_occ event_eq_dec
                  (snd (got_first_maps client (pre ++ num :: post)))
                  EvComplete <= 1)%nat.
Proof.
  intros client pre post num H0 Hnd Hr c1 c2 ev.
  assert (Hm0 : 0 <= mounting client < 8) by (rewrite H0; lia).
  assert (Hrpre : Forall (fun n => 0 <= n <= 2) pre)
    by (apply Forall_app in Hr; tauto).
  assert (Hnum : 0 <= num <= 2).
  { apply Forall_app in Hr. destruct Hr as [_ Hr].
    inversion Hr; assumption. }
  assert (Hnotin : ~ In num pre).
  { apply NoDup_remove_2 in Hnd. intros Hin. apply Hnd.
    apply in_or_app. left. assumption. }
  destruct (got_first_maps_bits pre client Hm0 Hrpre) as [Hm1 Hbits1].
  fold c1 in Hm1, Hbits1.
  destruct (got_first_map_complete c1 num Hnum Hm1) as [Hiff [_ Hdone]].
  fold c2 in Hiff, Hdone. fold ev in Hiff.
  assert (Hc1 : mounting c1 <> 7).
  { intros E. pose proof (Hbits1 num ltac:(lia)) as Hb.
    rewrite H0, Z.testbit_0_l, (existsb_eqb_false num pre Hnotin), E in Hb.
    by_cases_bit num Hnum; vm_compute in Hb; discriminate. }
  assert (Hm2 : 0 <= mounting c2 < 8).
  { subst c2. rewrite mounting_got_first_map. apply set_bit_low; assumption. }
  assert (Hbits2 : forall k, 0 <= k ->
            Z.testbit (mounting c2) k = existsb (Z.eqb k) (pre ++ [num])).
  { intros k Hk. subst c2.
    rewrite mounting_got_first_map, set_bit_testbit, (Hbits1 k Hk) by lia.
    rewrite H0, Z.testbit_0_l, existsb_app. simpl.
    rewrite orb_false_r. reflexivity. }
  split; [tauto|]. split; [|split; [exact Hdone|]].
  - rewrite Hiff, (low_word_full (mounting c2) Hm2).
    rewrite !Hbits2 by lia. split.
    + intros [B0 [B1 B2]] k Hk.
      assert (Hex : existsb (Z.eqb k) (pre ++ [num]) = true)
        by (by_cases_bit k Hk; assumption).
      apply existsb_exists in Hex. destruct Hex as [x [Hin Hx]].
      apply Z.eqb_eq in Hx. subst x. exact Hin.
    + intros Hall.
      split; [|split]; apply existsb_exists.
      * exists 0. split; [apply Hall; lia | reflexivity].
      * exists 1. split; [apply Hall; lia | reflexivity].
      * exists 2. split; [apply Hall; lia | reflexivity].
  - apply got_first_maps_complete_once; try assumption.
    intros n _. rewrite H0. apply Z.testbit_0_l.
Qed.

(** ** The dispatcher *)

(** [got_first_map] touches the [mounting] word and the completion only. *)
Lemma got_first_map_frame (c : ceph_client) (n : Z) :
  let c' := fst (got_first_map c n) in
  monc c' = monc c /\ mdsc c' = mdsc c /\ osdc c' = osdc c
  /\ whoami c' = whoami c /\ msgr_inst_name c' = msgr_inst_name c
  /\ s_root c' = s_root c.
Proof.
  unfold got_first_map. cbn [mounting set_mounting].
  destruct (find_first_zero_bit (set_bit n (mounting c)) 4 =? 3);
    repeat split; reflexivity.
Qed.

Lemma got_first_map_events (c : ceph_client) (n : Z) :
  In (EvGotFirstMap n) (snd (got_first_map c n))
  /\ forall n', In (EvGotFirstMap n') (snd (got_first_map c n)) -> n' = n.
Proof.
  unfold got_first_map.
  destruct (find_first_zero_bit _ 4 =? 3); simpl; split; auto.
  - intros n' [H|[H|[]]]; [injection H as H; congruence | discriminate].
  - intros n' [H|[]]. injection H as H; congruence.
Qed.

Section DispatchFacts.
Context {collab : Collaborators}.

(** What [ceph_dispatch] does with a map announcement of kind [k], in
    terms of the client [mid] that the subsystem handler leaves. *)
Lemma dispatch_map_announcement (k : map_kind) (client : ceph_client)
    (msg : ceph_msg) :
  hdr_type msg = kind_msg_type k ->
  exists mid evh,
    mounting mid = mounting client
    /\ mount_completion mid = mount_completion client
    /\ (forall n, ~ In (EvGotFirstMap n) evh)
    /\ ~ In EvComplete evh
    /\ ceph_dispatch client msg
       = if negb (map_present k client) && map_present k mid
         then (fst (got_first_map mid (kind_num k)),
               evh ++ snd (got_first_map mid (kind_num k)) ++ [EvMsgPut])
         else (mid, evh ++ [EvMsgPut]).
Proof.
  intros Ht. unfold ceph_dispatch. rewrite Ht.
  destruct k; cbn [kind_msg_type kind_num map_present].
  - exists (fst (handle_monmap client msg)), (snd (handle_monmap client msg)).
    assert (Hh : mounting (fst (handle_monmap client msg)) = mounting client
                 /\ mount_completion (fst (handle_monmap client msg))
                    = mount_completion client
                 /\ (forall n, ~ In (EvGotFirstMap n)
                                   (snd (handle_monmap client msg)))
                 /\ ~ In EvComplete (snd (handle_monmap client msg))).
    { unfold handle_monmap.
      destruct (ceph_monmap_decode (front msg)) as [new|e];
        [destruct (epoch (monmap (monc client)) =? 0)|];
        cbn; repeat split; try reflexivity;
        try (intros n [H|[]]; discriminate);
        try (intros [H|[]]; discriminate). }
    destruct Hh as [H1 [H2 [H3 H4]]].
    repeat (split; [assumption|]).
    destruct (handle_monmap client msg) as [mid evh]. cbn [fst snd].
    rewrite negb_involutive.
    destruct ((epoch (monmap (monc client)) =? 0)
              && negb (epoch (monmap (monc mid)) =? 0)).
    + destruct (got_first_map mid 0) as [c' ev']. cbn [fst snd].
      rewrite <- app_assoc. reflexivity.
    + reflexivity.
  - exists (set_mdsc client (ceph_mdsc_handle_map (mdsc client) msg)), [].
    repeat (split; [solve [reflexivity | intros ? [] | intros []]|]).
    cbn [mdsc set_mdsc app].
    destruct (negb (non_null (mdsmap (mdsc client)))
              && non_null (mdsmap (ceph_mdsc_handle_map (mdsc client) msg))).
    + destruct (got_first_map _ 1) as [c' ev']. reflexivity.
    + reflexivity.
  - exists (set_osdc client (ceph_osdc_handle_map (osdc client) msg)), [].
    repeat (split; [solve [reflexivity | intros ? [] | intros []]|]).
    cbn [osdc set_osdc app].
    destruct (negb (non_null (osdmap (osdc client)))
              && non_null (osdmap (ceph_osdc_handle_map (osdc client) msg))).
    + destruct (got_first_map _ 2) as [c' ev']. reflexivity.
    + reflexivity.
Qed.
End DispatchFacts.

Lemma map_present_got_first_map (k : map_kind) (c : ceph_client) (n : Z) :
  map_present k (fst (got_first_map c n)) = map_present k c.
Proof.
  destruct (got_first_map_frame c n) as [H1 [H2 [H3 _]]].
  destruct k; unfold map_present; rewrite ?H1, ?H2, ?H3; reflexivity.
Qed.

(** C1.  Dispatching a monitor-map, metadata-map or storage-map
    announcement calls [got_first_map] for that subsystem (and so sets its
    bit in [mounting]) exactly when the local map was absent before the
    handler ran (epoch 0, or a NULL map pointer) and is present after; no
    other subsystem's bit is touched.  When the map was already present,
    [got_first_map] and [complete] are not called and the [mounting] word
    and the completion are left as they were. *)
Theorem dispatch_marks_first_map_only :
  forall (collab : Collaborators) (k : map_kind) (client : ceph_client)
         (msg : ceph_msg),
    hdr_type msg = kind_msg_type k ->
    let client' := fst (ceph_dispatch client msg) in
    let ev := snd (ceph_dispatch client msg) in
    let edge := negb (map_present k client) && map_present k client' in
    (In (EvGotFirstMap (kind_num k)) ev <-> edge = true)
    /\ (forall n, In (EvGotFirstMap n) ev -> n = kind_num k)
    /\ mounting client'
       = (if edge then set_bit (kind_num k) (mounting client)
          else mounting client)
    /\ Z.testbit (mounting client') (kind_num k)
       = Z.testbit (mounting client) (kind_num k) || edge
    /\ (forall j, 0 <= j -> j <> kind_num k ->
                  Z.testbit (mounting client') j = Z.testbit (mounting client) j)
    /\ (map_present k client = true ->
        mounting client' = mounting client
        /\ mount_completion client' = mount_completion client
        /\ (forall n, ~ In (EvGotFirstMap n) ev)
        /\ ~ In EvComplete ev).
Proof.
  intros collab k client msg Ht client' ev edge.
  destruct (dispatch_map_announcement k client msg Ht)
    as [mid [evh [Hm [Hd [Hno [Hnc Heq]]]]]].
  assert (Hk : 0 <= kind_num k) by (destruct k; simpl; lia).
  subst edge client' ev. rewrite Heq. clear Heq.
  destruct (map_present k client) eqn:Hhad; cbn [negb andb fst snd].
  - (* the map was there already *)
    rewrite orb_false_r.
    assert (Hnone : forall n, ~ In (EvGotFirstMap n) (evh ++ [EvMsgPut])).
    { intros n Hin. apply in_app_or in Hin.
      destruct Hin as [Hin|[Hin|[]]]; [exact (Hno n Hin) | discriminate]. }
    split; [split; [intros Hin; destruct (Hnone _ Hin) | discriminate]|].
    split; [intros n Hin; destruct (Hnone _ Hin)|].
    split; [exact Hm|]. split; [rewrite Hm; reflexivity|].
    split; [intros j _ _; rewrite Hm; reflexivity|].
    intros _. repeat split; try assumption.
    intros Hin. apply in_app_or in Hin.
    destruct Hin as [Hin|[Hin|[]]]; [exact (Hnc Hin) | discriminate].
  - destruct (map_present k mid) eqn:Hnow; cbn [fst snd].
    + (* first map: the edge *)
      rewrite map_present_got_first_map, Hnow.
      rewrite mounting_got_first_map, Hm.
      destruct (got_first_map_events mid (kind_num k)) as [Hin Honly].
      split.
      { split; [reflexivity|]. intros _.
        apply in_or_app. right. apply in_or_app. left. exact Hin. }
      split.
      { intros n H. apply in_app_or in H. destruct H as [H|H].
        - destruct (Hno n H).
        - apply in_app_or in H. destruct H as [H|[H|[]]];
            [exact (Honly n H) | discriminate]. }
      split; [reflexivity|].
      split; [rewrite set_bit_testbit, Z.eqb_refl by lia; reflexivity|].
      split; [|discriminate].
      intros j Hj Hne. rewrite set_bit_testbit by lia.
      destruct (Z.eqb_spec j (kind_num k)); [contradiction|].
      apply orb_false_r.
    + (* still absent *)
      rewrite Hnow. rewrite orb_false_r.
      assert (Hnone : forall n, ~ In (EvGotFirstMap n) (evh ++ [EvMsgPut])).
      { intros n Hin. apply in_app_or in Hin.
        destruct Hin as [Hin|[Hin|[]]]; [exact (Hno n Hin) | discriminate]. }
      split; [split; [intros Hin; destruct (Hnone _ Hin) | discriminate]|].
      split; [intros n Hin; destruct (Hnone _ Hin)|].
      split; [exact Hm|]. split; [rewrite Hm; reflexivity|].
      split; [intros j _ _; rewrite Hm; reflexivity|].
      discriminate.
Qed.

Lemma got_first_map_no_put (c : ceph_client) (n : Z) :
  ~ In EvMsgPut (snd (got_first_map c n)).
Proof.
  unfold got_first_map.
  destruct (find_first_zero_bit _ 4 =? 3); simpl; intuition discriminate.
Qed.

Section DispatchRelease.
Context {collab : Collaborators}.

Lemma handle_monmap_no_put (client : ceph_client) (msg : ceph_msg) :
  ~ In EvMsgPut (snd (handle_monmap client msg)).
Proof.
  unfold handle_monmap.
  destruct (ceph_monmap_decode (front msg)); simpl; intuition discriminate.
Qed.

(** [ceph_msg_put] is the last call of [ceph_dispatch], and the only
    one on the message. *)
Lemma dispatch_ends_with_put (client : ceph_client) (msg : ceph_msg) :
  exists evs,
    snd (ceph_dispatch client msg) = evs ++ [EvMsgPut]
    /\ ~ In EvMsgPut evs.
Proof.
  unfold ceph_dispatch.
  destruct (hdr_type msg);
    try (eexists; split; [reflexivity | simpl; intuition discriminate]).
  - pose proof (handle_monmap_no_put client msg) as Hh.
    destruct (handle_monmap client msg) as [mid evh]. cbn [snd] in Hh.
    destruct (negb (negb (epoch (monmap (monc client)) =? 0))
              && negb (epoch (monmap (monc mid)) =? 0)).
    + pose proof (got_first_map_no_put mid 0) as Hg.
      destruct (got_first_map mid 0) as [c' ev']. cbn [snd] in *.
      eexists; split; [reflexivity|].
      intros Hin. apply in_app_or in Hin. tauto.
    + eexists; split; [reflexivity | assumption].
  - destruct (negb (non_null (mdsmap (mdsc client))) && _).
    + pose proof (got_first_map_no_put
                    (set_mdsc client
                              (ceph_mdsc_handle_map (mdsc client) msg)) 1)
        as Hg.
      destruct (got_first_map _ 1) as [c' ev']. cbn [snd] in *.
      eexists; split; [reflexivity | assumption].
    + eexists; split; [reflexivity | simpl; tauto].
  - destruct (negb (non_null (osdmap (osdc client))) && _).
    + pose proof (got_first_map_no_put
                    (set_osdc client
                              (ceph_osdc_handle_map (osdc client) msg)) 2)
        as Hg.
      destruct (got_first_map _ 2) as [c' ev']. cbn [snd] in *.
      eexists; split; [reflexivity | assumption].
    + eexists; split; [reflexivity | simpl; tauto].
Qed.
End DispatchRelease.

(** C5.  Whatever the message and whatever the handlers do to their
    subsystem state, [ceph_dispatch] calls [ceph_msg_put] on the message
    exactly once, as its last action.  [ceph_dispatch] returns no value: on
    a type that reaches no [case] it logs the type, leaves the client as it
    was and puts the message. *)
Theorem dispatch_puts_message_once :
  forall (collab : Collaborators) (client : ceph_client) (msg : ceph_msg),
    count_occ event_eq_dec (snd (ceph_dispatch client msg)) EvMsgPut = 1%nat
    /\ (exists evs, snd (ceph_dispatch client msg) = evs ++ [EvMsgPut])
    /\ (dispatched (hdr_type msg) = false ->
        ceph_dispatch client msg
        = (client, [EvDerrUnknown (hdr_type msg); EvMsgPut])).
Proof.
  intros collab client msg.
  destruct (dispatch_ends_with_put client msg) as [evs [Heq Hnot]].
  split; [|split].
  - rewrite Heq, count_occ_app.
    rewrite (proj1 (count_occ_not_In event_eq_dec evs EvMsgPut) Hnot).
    simpl. destruct (event_eq_dec EvMsgPut EvMsgPut); [reflexivity|congruence].
  - exists evs. exact Heq.
  - unfold ceph_dispatch.
    destruct (hdr_type msg); simpl; intros H; try discriminate; reflexivity.
Qed.

(** C10.  When [ceph_monmap_decode] fails on a monitor-map message,
    [handle_monmap] and [ceph_dispatch] leave the client exactly as it was
    (the stored monitor map and its epoch, [whoami], the messenger's name,
    the [mounting] word and the completion included), and the only calls
    made are the error log and [ceph_msg_put]: [got_first_map] is not
    called, also when no monitor map had been received yet. *)
Theorem failed_monmap_decode_changes_nothing :
  forall (collab : Collaborators) (client : ceph_client) (msg : ceph_msg)
         (e : positive),
    hdr_type msg = CEPH_MSG_MON_MAP ->
    ceph_monmap_decode (front msg) = ErrPtr e ->
    let client' := fst (ceph_dispatch client msg) in
    fst (handle_monmap client msg) = client
    /\ ceph_dispatch client msg = (client, [EvDerrMonmap (PTR_ERR e); EvMsgPut])
    /\ monmap (monc client') = monmap (monc client)
    /\ whoami client' = whoami client
    /\ msgr_inst_name client' = msgr_inst_name client
    /\ Z.testbit (mounting client') 0 = Z.testbit (mounting client) 0
    /\ mount_completion client' = mount_completion client.
Proof.
  intros collab client msg e Ht Hdec client'.
  assert (Hh : handle_monmap client msg = (client, [EvDerrMonmap (PTR_ERR e)]))
    by (unfold handle_monmap; rewrite Hdec; reflexivity).
  assert (Hd : ceph_dispatch client msg
               = (client, [EvDerrMonmap (PTR_ERR e); EvMsgPut])).
  { unfold ceph_dispatch. rewrite Ht, Hh.
    destruct (epoch (monmap (monc client)) =? 0); reflexivity. }
  subst client'. rewrite Hd, Hh. repeat split; reflexivity.
Qed.

(** ** The statements at sample inputs *)

(** One aggregate is created and destroyed while the creation of another
    fails and rolls back: the last release takes the count from 1 to 0 and
    shuts the work queue down. *)
Lemma workqueue_calls_witness :
  interleaving (map lifetime_ops [(good_create_env, true);
                                  (failing_create_env, false)])
               ([Acquire; Acquire; Release] ++ Release :: [])
  /\ counter_run 0 [Acquire; Acquire; Release] = 1
  /\ In WorkqueueShutdown
        (snd (counter_step (counter_run 0 [Acquire; Acquire; Release]) Release)).
Proof.
  assert (Hint : interleaving
                   (map lifetime_ops [(good_create_env, true);
                                      (failing_create_env, false)])
                   ([Acquire; Acquire; Release] ++ Release :: [])).
  { apply (interleaving_step [] Acquire [Release] [[Acquire; Release]]).
    apply (interleaving_step [[Release]] Acquire [Release] []).
    apply (interleaving_step [] Release [] [[Release]]).
    apply (interleaving_step [[]] Release [] []).
    apply interleaving_done. repeat constructor. }
  assert (Hpeak : Z.of_nat (peak 0 ([Acquire; Acquire; Release]
                                      ++ Release :: [])) <= INT_MAX)
    by (unfold INT_MAX; simpl; lia).
  pose proof (workqueue_calls_on_count_edges
                [(good_create_env, true); (failing_create_env, false)]
                [Acquire; Acquire; Release] [] Release Hint Hpeak) as H.
  cbv zeta in H. destruct H as [_ [_ [_ [_ [_ [Hdown _]]]]]].
  split; [exact Hint|]. split; [reflexivity|].
  apply Hdown. split; reflexivity.
Defined.

(** The first metadata map sets bit 1. *)
Lemma dispatch_marks_first_map_witness :
  hdr_type (msg_of CEPH_MSG_MDS_MAP [1]) = kind_msg_type MetadataMap
  /\ mounting (fst (@ceph_dispatch sample_collaborators fresh_client
                                    (msg_of CEPH_MSG_MDS_MAP [1]))) = 2.
Proof.
  assert (Ht : hdr_type (msg_of CEPH_MSG_MDS_MAP [1])
               = kind_msg_type MetadataMap) by reflexivity.
  split; [exact Ht|].
  pose proof (dispatch_marks_first_map_only
                sample_collaborators MetadataMap fresh_client
                (msg_of CEPH_MSG_MDS_MAP [1]) Ht) as H.
  cbv zeta in H. destruct H as [_ [_ [H _]]].
  rewrite H. reflexivity.
Defined.

(** Storage, monitor, metadata: the third call completes the mount. *)
Lemma complete_fires_witness :
  mounting fresh_client = 0
  /\ NoDup ([2; 0] ++ 1 :: [])
  /\ In EvComplete
        (snd (got_first_map (fst (got_first_maps fresh_client [2; 0])) 1)).
Proof.
  assert (H0 : mounting fresh_client = 0) by reflexivity.
  assert (Hnd : NoDup ([2; 0] ++ 1 :: [])).
  { simpl. repeat constructor; simpl; intuition discriminate. }
  assert (Hr : Forall (fun n => 0 <= n <= 2) ([2; 0] ++ 1 :: [])).
  { simpl. repeat constructor; lia. }
  pose proof (complete_fires_on_last_bit fresh_client [2; 0] [] 1 H0 Hnd Hr)
    as H.
  cbv zeta in H. destruct H as [Hiff _].
  split; [exact H0|]. split; [exact Hnd|].
  apply Hiff. split; [vm_compute; discriminate | reflexivity].
Defined.

(** A ping reaches no case of the switch. *)
Lemma dispatch_unknown_witness :
  dispatched (hdr_type (msg_of CEPH_MSG_PING [])) = false
  /\ @ceph_dispatch sample_collaborators fresh_client (msg_of CEPH_MSG_PING [])
     = (fresh_client, [EvDerrUnknown CEPH_MSG_PING; EvMsgPut]).
Proof.
  assert (Hd : dispatched (hdr_type (msg_of CEPH_MSG_PING [])) = false)
    by reflexivity.
  split; [exact Hd|].
  exact (proj2 (proj2 (dispatch_puts_message_once
                         sample_collaborators fresh_client
                         (msg_of CEPH_MSG_PING []))) Hd).
Defined.

(** [ceph_add_cap] fails after the root inode was obtained in this call:
    both inodes and the request are released. *)
Lemma open_root_failure_cleanup_witness :
  or_ret (open_root_inode cap_failure_env None None) = Return (-12)
  /\ or_alloc_fs (open_root_inode cap_failure_env None None) = true
  /\ filter is_iput_root (or_events (open_root_inode cap_failure_env None None))
     = [EvIputRoot 1]
  /\ filter is_iput_mnt (or_events (open_root_inode cap_failure_env None None))
     = [EvIputMnt (Some 2)]
  /\ filter is_put_request
            (or_events (open_root_inode cap_failure_env None None))
     = [EvPutRequest 100].
Proof.
  assert (Hreq : oe_create_request cap_failure_env = Ptr 100) by reflexivity.
  assert (Hge : 0 <= oe_do_request cap_failure_env) by (simpl; lia).
  assert (Hret : or_ret (open_root_inode cap_failure_env None None)
                 = Return (-12)) by reflexivity.
  assert (Hne : -12 <> 0) by lia.
  pose proof (open_root_failure_cleanup cap_failure_env None None 100 (-12)
                                         Hreq Hge Hret Hne) as H.
  cbv zeta in H. destruct H as [Ha [Hroot [_ [Hmnt [_ Hput]]]]].
  split; [exact Hret|]. split; [rewrite Ha; reflexivity|].
  split; [rewrite Hroot, Ha; reflexivity|].
  split; [rewrite (Hmnt eq_refl); reflexivity | exact Hput].
Defined.

Lemma open_root_empty_trace_witness :
  oe_create_request empty_trace_env = Ptr 100
  /\ trace_nr (oe_reply_info empty_trace_env) = 0
  /\ or_ret (open_root_inode empty_trace_env None None) = Return (-22).
Proof.
  assert (Hnr : 0 <= trace_nr (oe_reply_info empty_trace_env))
    by (simpl; lia).
  assert (Hreq : oe_create_request empty_trace_env = Ptr 100) by reflexivity.
  assert (Hge : 0 <= oe_do_request empty_trace_env) by (simpl; lia).
  split; [exact Hreq|]. split; [reflexivity|].
  exact (proj1 (proj1 (open_root_empty_trace_is_einval
                         empty_trace_env None None Hnr)
                      100 Hreq Hge eq_refl eq_refl)).
Defined.

(** An empty buffer does not decode: the fresh client stays as it is. *)
Lemma failed_monmap_decode_witness :
  hdr_type (msg_of CEPH_MSG_MON_MAP []) = CEPH_MSG_MON_MAP
  /\ @ceph_monmap_decode sample_collaborators (front (msg_of CEPH_MSG_MON_MAP []))
     = ErrPtr 22
  /\ @ceph_dispatch sample_collaborators fresh_client
                    (msg_of CEPH_MSG_MON_MAP [])
     = (fresh_client, [EvDerrMonmap (-22); EvMsgPut]).
Proof.
  assert (Ht : hdr_type (msg_of CEPH_MSG_MON_MAP []) = CEPH_MSG_MON_MAP)
    by reflexivity.
  assert (Hdec : @ceph_monmap_decode sample_collaborators
                                     (front (msg_of CEPH_MSG_MON_MAP []))
                 = ErrPtr 22) by reflexivity.
  split; [exact Ht|]. split; [exact Hdec|].
  exact (proj1 (proj2 (failed_monmap_decode_changes_nothing
                         sample_collaborators fresh_client
                         (msg_of CEPH_MSG_MON_MAP []) 22 Ht Hdec))).
Defined.


(** * Further properties *)

(** ** Names of message types *)

(** X1.  [ceph_msg_type_name] gives "unknown" exactly for the types it
    does not list, and two types with the same name are the same type or
    both unlisted: the twenty names are pairwise distinct. *)
Theorem msg_type_names_distinct :
  forall t1 t2 : msg_type,
    (ceph_msg_type_name t1 = "unknown"%string
     <-> exists tag, t1 = CEPH_MSG_OTHER tag)
    /\ (ceph_msg_type_name t1 = ceph_msg_type_name t2 ->
        t1 = t2 \/ (ceph_msg_type_name t1 = "unknown"%string
                    /\ ceph_msg_type_name t2 = "unknown"%string)).
Proof.
  intros t1 t2. split.
  - split.
    + destruct t1; simpl; intros H; try discriminate. eauto.
    + intros [tag ->]. reflexivity.
  - destruct t1, t2; simpl; intros H;
      try discriminate; try (left; reflexivity).
    right. split; reflexivity.
Qed.

(** ** The mount loop, whatever the surroundings do *)

(** Attempts in which nothing arrives are passed over: each sends its join
    request and takes one from the budget. *)
Lemma mount_loop_stalled_prefix (sgn : bool) (args : ceph_mount_args) :
  num_mon args <> 0 ->
  forall (pre rest : list attempt_env) (attempts : Z)
         (sent : list mount_event),
    never_ready pre ->
    never_interrupted pre ->
    always_allocated pre ->
    Z.of_nat (length pre) < attempts <= INT_MAX ->
    mount_loop sgn args attempts (pre ++ rest) sent
    = mount_loop sgn args (attempts - Z.of_nat (length pre)) rest
                 (sent ++ flat_map (send_of sgn args) pre).
Proof.
  intros Hmon.
  induction pre as [|a pre IH]; intros rest attempts sent Hr Hi Ha Hn.
  - simpl. rewrite Z.sub_0_r, app_nil_r. reflexivity.
  - inversion Hr as [|? ? [Ht Hafter] Hr']; subst.
    inversion Hi as [|? ? Hw Hi']; subst.
    inversion Ha as [|? ? [m Hm] Ha']; subst.
    cbn [app mount_loop flat_map length] in *.
    rewrite Hm.
    destruct (Z.ltb_spec (at_mounting_test a) 7); [|lia]. cbn [negb].
    destruct (Z.eqb_spec (num_mon args) 0); [contradiction|].
    destruct (Z.eqb_spec (at_wait a) (- EINTR)); [contradiction|].
    destruct (Z.eqb_spec (at_mounting_after a) 7); [lia|].
    rewrite wrap_int_small by (unfold INT_MIN, INT_MAX in *; lia).
    destruct (Z.eqb_spec (attempts - 1) 0) as [E|E]; [lia|].
    rewrite IH by (try assumption; lia).
    rewrite <- app_assoc.
    f_equal; [lia | unfold send_of; rewrite Hm; reflexivity].
Qed.




(** With no monitor configured the first attempt that gets past the loop
    test stops at the division, before any message is allocated or sent. *)
Lemma mount_without_monitors_traps :
  forall (N : Z) (sgn : bool) (args : ceph_mount_args) (a : attempt_env)
         (script : list attempt_env) (oenv : open_env)
         (s0 p0 : option dentry),
    num_mon args = 0 ->
    at_mounting_test a < 7 ->
    ceph_mount_with N sgn args (a :: script) oenv s0 p0
    = Some {| mr_ret := DivideError; mr_sent := []; mr_open := None |}.
Proof.
  intros N sgn args a script oenv s0 p0 Hzero Ht.
  unfold ceph_mount_with. cbn [mount_loop].
  destruct (Z.ltb_spec (at_mounting_test a) 7); [|lia]. cbn [negb].
  rewrite Hzero. reflexivity.
Qed.

(** X3.  With a monitor count that is not zero, an interrupted wait ends
    the mount at once: after any number of fruitless attempts within the
    budget, an attempt whose wait returns [-EINTR] makes the mount return
    [-EINTR], its own join request being the last one sent, without a
    retry and without opening the root. *)
Theorem mount_interrupted_returns_eintr :
  forall (N : Z) (sgn : bool) (args : ceph_mount_args)
         (pre post : list attempt_env) (a : attempt_env) (m : Z)
         (oenv : open_env) (s0 p0 : option dentry),
    N <= INT_MAX ->
    num_mon args <> 0 ->
    never_ready pre ->
    never_interrupted pre ->
    always_allocated pre ->
    Z.of_nat (length pre) < N ->
    0 <= at_mounting_test a < 7 ->
    at_msg_new a = Ptr m ->
    at_wait a = - EINTR ->
    ceph_mount_with N sgn args (pre ++ a :: post) oenv s0 p0
    = Some {| mr_ret := Return (- EINTR);
              mr_sent := flat_map (send_of sgn args) (pre ++ [a]);
              mr_open := None |}.
Proof.
  intros N sgn args pre post a m oenv s0 p0 HN Hmon Hr Hi Ha Hlen Ht Hm Hw.
  unfold ceph_mount_with.
  rewrite mount_loop_stalled_prefix by (try assumption; lia).
  cbn [mount_loop app]. rewrite Hm, Hw.
  destruct (Z.ltb_spec (at_mounting_test a) 7); [|lia]. cbn [negb].
  destruct (Z.eqb_spec (num_mon args) 0); [contradiction|].
  rewrite Z.eqb_refl. cbn [mount_after_loop].
  rewrite flat_map_app. cbn [flat_map]. unfold send_of at 3.
  rewrite Hm, app_nil_r. reflexivity.
Qed.

Lemma mount_interrupted_witness :
  ceph_mount false three_monitors
             ([stalled_attempt 4 1; stalled_attempt 5 2]
                ++ interrupted_attempt 6 3 :: [])
             good_open_env None None
  = Some {| mr_ret := Return (-4);
            mr_sent := flat_map (send_of false three_monitors)
                                ([stalled_attempt 4 1; stalled_attempt 5 2]
                                   ++ [interrupted_attempt 6 3]);
            mr_open := None |}.
Proof.
  apply (mount_interrupted_returns_eintr
           10 false three_monitors
           [stalled_attempt 4 1; stalled_attempt 5 2] []
           (interrupted_attempt 6 3) 3 good_open_env None None).
  - unfold INT_MAX; lia.
  - simpl; lia.
  - repeat constructor; simpl; lia.
  - repeat constructor; simpl; unfold EINTR; lia.
  - repeat constructor; simpl; eexists; reflexivity.
  - simpl; lia.
  - simpl; lia.
  - reflexivity.
  - reflexivity.
Defined.

(** X4.  With a monitor count that is not zero: once all three maps are
    seen (by the loop test, or after the wait of an attempt), after any
    number of fruitless attempts within the budget, the mount sends
    nothing more, calls [open_root_inode] exactly once, and returns that
    call's code when it is negative and 0 otherwise. *)
Theorem mount_ready_opens_root :
  forall (N : Z) (sgn : bool) (args : ceph_mount_args)
         (pre post : list attempt_env) (a : attempt_env)
         (oenv : open_env) (s0 p0 : option dentry),
    N <= INT_MAX ->
    num_mon args <> 0 ->
    never_ready pre ->
    never_interrupted pre ->
    always_allocated pre ->
    Z.of_nat (length pre) < N ->
    sees_ready a ->
    exists r,
      ceph_mount_with N sgn args (pre ++ a :: post) oenv s0 p0 = Some r
      /\ mr_sent r = flat_map (send_of sgn args) pre ++ ready_send sgn args a
      /\ mr_open r = Some (open_root_inode oenv s0 p0)
      /\ (forall err, or_ret (open_root_inode oenv s0 p0) = Return err ->
                      mr_ret r = Return (Z.min err 0)).
Proof.
  intros N sgn args pre post a oenv s0 p0 HN Hmon Hr Hi Ha Hlen Hready.
  unfold ceph_mount_with.
  rewrite mount_loop_stalled_prefix by (try assumption; lia).
  assert (Hret : forall sent err,
            or_ret (open_root_inode oenv s0 p0) = Return err ->
            mr_ret (mount_after_loop oenv s0 p0 LoopDone sent)
            = Return (Z.min err 0)).
  { intros sent err Herr. cbn [mount_after_loop mr_ret]. rewrite Herr.
    destruct (Z.ltb_spec err 0); f_equal; lia. }
  cbn [mount_loop app]. unfold ready_send.
  destruct Hready as [Hfull | [Ht [[m Hm] [Hw Hafter]]]].
  - destruct (Z.ltb_spec (at_mounting_test a) 7); [lia|]. cbn [negb].
    destruct (Z.leb_spec 7 (at_mounting_test a)); [|lia].
    rewrite app_nil_r.
    eexists. split; [reflexivity|].
    split; [reflexivity|]. split; [reflexivity | apply Hret].
  - destruct (Z.ltb_spec (at_mounting_test a) 7); [|lia]. cbn [negb].
    destruct (Z.leb_spec 7 (at_mounting_test a)); [lia|].
    destruct (Z.eqb_spec (num_mon args) 0); [contradiction|].
    rewrite Hm. unfold send_of. rewrite Hm.
    destruct (Z.eqb_spec (at_wait a) (- EINTR)); [contradiction|].
    rewrite Hafter, Z.eqb_refl.
    eexists. split; [reflexivity|].
    split; [reflexivity|]. split; [reflexivity | apply Hret].
Qed.

Lemma mount_ready_witness :
  exists r,
    ceph_mount false three_monitors
               ([stalled_attempt 4 1] ++ ready_attempt 5 2 :: [])
               good_open_env None None = Some r
    /\ length (mr_sent r) = 2%nat
    /\ mr_ret r = Return 0.
Proof.
  assert (Hready : sees_ready (ready_attempt 5 2)).
  { right. split; [simpl; lia|]. split; [eexists; reflexivity|].
    split; [simpl; unfold EINTR; lia | reflexivity]. }
  destruct (mount_ready_opens_root
              10 false three_monitors [stalled_attempt 4 1] []
              (ready_attempt 5 2) good_open_env None None)
    as [r [Heq [Hsent [_ Hret]]]].
  - unfold INT_MAX; lia.
  - simpl; lia.
  - repeat constructor; simpl; lia.
  - repeat constructor; simpl; unfold EINTR; lia.
  - repeat constructor; simpl; eexists; reflexivity.
  - simpl; lia.
  - exact Hready.
  - exists r. split; [exact Heq|]. split.
    + rewrite Hsent. reflexivity.
    + rewrite (Hret 0); reflexivity.
Defined.

(** ** The root directory, beyond the failure paths *)

(** X5.  A reply with a positive result code is not an error for the
    mount: [open_root_inode] returns the code after putting the request,
    with no root entry and no mount-path entry set up, and the mount,
    which only tests for a negative value, returns 0. *)
Theorem positive_open_result_mounts :
  forall (env : open_env) (s0 p0 : option dentry) (req : Z)
         (sent : list mount_event),
    oe_create_request env = Ptr req ->
    0 <= oe_do_request env ->
    0 < int_of_u32 (le32_to_cpu (head_result (oe_reply_info env))) ->
    let r := open_root_inode env s0 p0 in
    or_ret r = Return (int_of_u32 (le32_to_cpu (head_result (oe_reply_info env))))
    /\ or_events r = [EvPutRequest req]
    /\ or_s_root r = s0
    /\ or_pmnt_root r = p0
    /\ mr_ret (mount_after_loop env s0 p0 LoopDone sent) = Return 0.
Proof.
  intros env s0 p0 req sent Hreq Hge Hpos r.
  assert (Hne : int_of_u32 (le32_to_cpu (head_result (oe_reply_info env))) <> 0)
    by lia.
  destruct (open_root_rejected env s0 p0 req Hreq Hge Hne) as [Hret Hev].
  fold r in Hret, Hev.
  split; [exact Hret|]. split; [exact Hev|].
  assert (Hrest : or_s_root r = s0 /\ or_pmnt_root r = p0).
  { subst r. unfold open_root_inode. rewrite Hreq.
    destruct (Z.ltb_spec (oe_do_request env) 0); [lia|].
    destruct (Z.eqb_spec
                (int_of_u32 (le32_to_cpu (head_result (oe_reply_info env)))) 0);
      [contradiction|].
    split; reflexivity. }
  destruct Hrest as [Hs Hp]. split; [exact Hs|]. split; [exact Hp|].
  cbn [mount_after_loop mr_ret]. fold r. rewrite Hret.
  destruct (Z.ltb_spec
              (int_of_u32 (le32_to_cpu (head_result (oe_reply_info env)))) 0);
    [lia | reflexivity].
Qed.

Lemma positive_open_result_witness :
  or_ret (open_root_inode positive_result_env None None) = Return 3
  /\ or_s_root (open_root_inode positive_result_env None None) = None
  /\ mr_ret (mount_after_loop positive_result_env None None LoopDone [])
     = Return 0.
Proof.
  assert (Hreq : oe_create_request positive_result_env = Ptr 100)
    by reflexivity.
  assert (Hge : 0 <= oe_do_request positive_result_env) by (simpl; lia).
  assert (Hpos : 0 < int_of_u32
                       (le32_to_cpu (head_result
                                       (oe_reply_info positive_result_env))))
    by (vm_compute; reflexivity).
  pose proof (positive_open_result_mounts positive_result_env None None 100 []
                                          Hreq Hge Hpos) as H.
  cbv zeta in H. destruct H as [Hret [_ [Hs [_ Hm]]]].
  split; [exact Hret|]. split; [exact Hs | exact Hm].
Defined.

(** X6.  [open_root_inode] returns 0 exactly when it pins the mount-path
    inode.  In that case the request was created and is put once, after
    the pin; those are its only calls, so no inode is released; the root
    entry and the mount-path entry are both set; and [alloc_fs] tells
    whether this call obtained the root inode. *)
Theorem open_root_success_shape :
  forall (env : open_env) (s0 p0 : option dentry),
    let r := open_root_inode env s0 p0 in
    (or_ret r = Return 0 <-> exists m, In (EvPin m) (or_events r))
    /\ (or_ret r = Return 0 ->
        exists req root d,
          oe_create_request env = Ptr req
          /\ or_events r = [EvPin (snd (fst (oe_fill_trace env)));
                            EvPutRequest req]
          /\ or_s_root r = Some d /\ d_inode d = Some root
          /\ or_pmnt_root r <> None
          /\ or_alloc_fs r = allocates_root env s0).
Proof.
  intros env s0 p0 r. subst r.
  unfold open_root_inode, allocates_root, reply_usable, fill_and_bind,
    out2, out, PTR_ERR.
  destruct (oe_create_request env) as [req|e]; cbn [or_ret or_events].
  2:{ split; [split; [discriminate | intros [m []]] | discriminate]. }
  destruct (Z.ltb_spec (oe_do_request env) 0) as [Hlt|Hge];
    cbn [or_ret or_events].
  { split; [split; [intros [= ?]; lia | intros [m []]] | intros [= ?]; lia]. }
  destruct (Z.eqb_spec
              (int_of_u32 (le32_to_cpu (head_result (oe_reply_info env)))) 0)
    as [Hres|Hres]; cbn [negb andb or_ret or_events app].
  2:{ split; [split; [intros [= ?]; contradiction
                     | intros [m [?|[]]]; discriminate]
             | intros [= ?]; contradiction]. }
  destruct (Z.eqb_spec (trace_nr (oe_reply_info env)) 0) as [Htr|Htr];
    cbn [negb andb or_ret or_events app].
  { split; [split; [discriminate | intros [m [?|[]]]; discriminate]
           | discriminate]. }
  destruct (oe_fill_trace env) as [[ferr mnt] pmnt]. cbn [fst snd].
  destruct s0 as [d|]; cbn [non_null negb andb].
  - destruct (d_inode d) as [root|] eqn:Hd; cbn [or_ret or_events].
    2:{ split; [split; [discriminate | intros [m []]] | discriminate]. }
    destruct (Z.ltb_spec ferr 0); cbn [or_ret or_events app].
    { split; [split; [intros [= ?]; lia
                     | intros [m [?|[?|[]]]]; discriminate]
             | intros [= ?]; lia]. }
    destruct pmnt as [pd|]; cbn [or_ret or_events app].
    2:{ split; [split; [discriminate
                       | intros [m [?|[?|[]]]]; discriminate]
               | discriminate]. }
    destruct (oe_add_cap env) as [cap|e]; cbn [or_ret or_events app].
    2:{ split; [split; [discriminate
                       | intros [m [?|[?|[]]]]; discriminate]
               | discriminate]. }
    split; [split; [intros _; exists mnt; left; reflexivity | reflexivity]|].
    intros _. exists req, root, d.
    repeat (split; [first [reflexivity | assumption | discriminate]|]).
    reflexivity.
  - destruct (oe_get_inode env) as [gerr root]. cbn [fst snd].
    destruct (Z.ltb_spec gerr 0) as [Hg|Hg]; cbn [or_ret or_events app].
    { split; [split; [intros [= ?]; lia | intros [m [?|[]]]; discriminate]
             | intros [= ?]; lia]. }
    destruct (oe_d_alloc_root env); cbn [or_ret or_events app].
    2:{ split; [split; [discriminate
                       | intros [m [?|[?|[?|[]]]]]; discriminate]
               | discriminate]. }
    destruct (Z.ltb_spec ferr 0); cbn [or_ret or_events app].
    { split; [split; [intros [= ?]; lia
                     | intros [m [?|[?|[?|[]]]]]; discriminate]
             | intros [= ?]; lia]. }
    destruct pmnt as [pd|]; cbn [or_ret or_events app].
    2:{ split; [split; [discriminate
                       | intros [m [?|[?|[?|[]]]]]; discriminate]
               | discriminate]. }
    destruct (oe_add_cap env) as [cap|e]; cbn [or_ret or_events app].
    2:{ split; [split; [discriminate
                       | intros [m [?|[?|[?|[]]]]]; discriminate]
               | discriminate]. }
    split; [split; [intros _; exists mnt; left; reflexivity | reflexivity]|].
    intros _. exists req, root, {| d_inode := Some root |}.
    destruct (Z.leb_spec 0 gerr); [|lia].
    repeat (split; [first [reflexivity | assumption | discriminate]|]).
    reflexivity.
Qed.

(** What [open_root_inode] does with a root entry that is already there. *)
Lemma open_root_reuse_facts :
  forall (env : open_env) (d : dentry) (p0 : option dentry),
    let r := open_root_inode env (Some d) p0 in
    or_s_root r = Some d
    /\ or_alloc_fs r = false
    /\ filter is_iput_root (or_events r) = []
    /\ (or_ret r = Bug <->
        (exists req, oe_create_request env = Ptr req)
        /\ 0 <= oe_do_request env
        /\ reply_usable env = true
        /\ d_inode d = None).
Proof.
  intros env d p0 r. subst r.
  unfold open_root_inode, reply_usable, fill_and_bind, out2, out.
  destruct (oe_create_request env) as [req|e];
    cbn [or_ret or_events or_s_root or_alloc_fs filter].
  2:{ repeat (split; [reflexivity|]).
      split; [discriminate | intros [[req ?] _]; discriminate]. }
  destruct (Z.ltb_spec (oe_do_request env) 0) as [Hlt|Hge];
    cbn [or_ret or_events or_s_root or_alloc_fs filter].
  { repeat (split; [reflexivity|]).
    split; [discriminate | intros [_ [? _]]; lia]. }
  destruct (int_of_u32 (le32_to_cpu (head_result (oe_reply_info env))) =? 0);
    cbn [negb andb or_ret or_events or_s_root or_alloc_fs filter app
         is_iput_root].
  2:{ repeat (split; [reflexivity|]).
      split; [discriminate | intros [_ [_ [? _]]]; discriminate]. }
  destruct (trace_nr (oe_reply_info env) =? 0);
    cbn [negb andb or_ret or_events or_s_root or_alloc_fs filter app
         is_iput_root].
  { repeat (split; [reflexivity|]).
    split; [discriminate | intros [_ [_ [? _]]]; discriminate]. }
  destruct (d_inode d) as [root|];
    cbn [or_ret or_events or_s_root or_alloc_fs filter].
  2:{ repeat (split; [reflexivity|]).
      split; [intros _; repeat split; eauto | intros _; reflexivity]. }
  destruct (oe_fill_trace env) as [[ferr mnt] pmnt].
  destruct (ferr <? 0);
    [|destruct pmnt; [destruct (oe_add_cap env)|]];
    cbn [or_ret or_events or_s_root or_alloc_fs filter app is_iput_root];
    (repeat (split; [reflexivity|]));
    (split; [discriminate | intros [_ [_ [_ ?]]]; discriminate]).
Qed.

(** X7.  When a root entry exists before the call, [open_root_inode] never
    replaces it, never sets [alloc_fs] and never calls [iput(root_inode)];
    and it stops at the [BUG_ON] exactly when the request went through,
    the reply is usable (result 0, non-empty trace) and that entry has no
    inode. *)
Theorem open_root_reuses_root :
  forall (env : open_env) (d : dentry) (p0 : option dentry),
    let r := open_root_inode env (Some d) p0 in
    or_s_root r = Some d
    /\ or_alloc_fs r = false
    /\ filter is_iput_root (or_events r) = []
    /\ (or_ret r = Bug <->
        (exists req, oe_create_request env = Ptr req)
        /\ 0 <= oe_do_request env
        /\ reply_usable env = true
        /\ d_inode d = None).
Proof. exact open_root_reuse_facts. Qed.

(** X8.  Two calls in a row make one root: whatever root entry a first
    call leaves behind (also a call that failed after setting it), a
    second call goes on with that same entry, does not allocate or release
    a root inode, and does not stop at the [BUG_ON]. *)
Theorem open_root_twice_one_root :
  forall (env1 env2 : open_env) (p0 p1 : option dentry) (d : dentry),
    or_s_root (open_root_inode env1 None p0) = Some d ->
    let r2 := open_root_inode env2 (Some d) p1 in
    or_ret r2 <> Bug
    /\ or_s_root r2 = Some d
    /\ or_alloc_fs r2 = false
    /\ filter is_iput_root (or_events r2) = [].
Proof.
  intros env1 env2 p0 p1 d Hfirst r2.
  assert (Hd : exists root, d_inode d = Some root).
  { revert Hfirst.
    unfold open_root_inode, fill_and_bind, out2, out.
    destruct (oe_create_request env1); cbn [or_s_root]; [|discriminate].
    destruct (oe_do_request env1 <? 0); cbn [or_s_root]; [discriminate|].
    destruct (negb _); cbn [or_s_root]; [discriminate|].
    destruct (trace_nr (oe_reply_info env1) =? 0); cbn [or_s_root];
      [discriminate|].
    destruct (oe_get_inode env1) as [gerr root].
    destruct (gerr <? 0); cbn [or_s_root]; [discriminate|].
    destruct (oe_d_alloc_root env1); cbn [or_s_root]; [|discriminate].
    destruct (oe_fill_trace env1) as [[ferr mnt] pmnt].
    destruct (ferr <? 0);
      [|destruct pmnt; [destruct (oe_add_cap env1)|]];
      cbn [or_s_root]; intros [= <-]; exists root; reflexivity. }
  destruct Hd as [root Hroot].
  destruct (open_root_reuse_facts env2 d p1) as [Hs [Ha [Hi Hbug]]].
  fold r2 in Hs, Ha, Hi, Hbug.
  split; [|split; [exact Hs | split; [exact Ha | exact Hi]]].
  intros Hb. apply Hbug in Hb. destruct Hb as [_ [_ [_ Hnone]]].
  congruence.
Qed.

Lemma open_root_twice_witness :
  or_s_root (open_root_inode cap_failure_env None None)
  = Some {| d_inode := Some 1 |}
  /\ or_alloc_fs (open_root_inode good_open_env
                                  (Some {| d_inode := Some 1 |}) None)
     = false.
Proof.
  assert (H1 : or_s_root (open_root_inode cap_failure_env None None)
               = Some {| d_inode := Some 1 |}) by reflexivity.
  split; [exact H1|].
  exact (proj1 (proj2 (proj2 (open_root_twice_one_root
                                cap_failure_env good_open_env None None
                                {| d_inode := Some 1 |} H1)))).
Defined.

(** X9.  A failing call that has set the root entry leaves it pointing at
    an inode it has released: if [open_root_inode], entered without a root
    entry, returns an error and a root entry is set on exit, then that
    entry's inode is the one obtained from [ceph_get_inode] and
    [iput(root_inode)] was called on it. *)
Theorem open_root_failure_leaves_released_root :
  forall (env : open_env) (p0 : option dentry) (req err : Z) (d : dentry),
    oe_create_request env = Ptr req ->
    or_ret (open_root_inode env None p0) = Return err ->
    err <> 0 ->
    or_s_root (open_root_inode env None p0) = Some d ->
    d_inode d = Some (snd (oe_get_inode env))
    /\ In (EvIputRoot (snd (oe_get_inode env)))
          (or_events (open_root_inode env None p0)).
Proof.
  intros env p0 req err d Hreq. 
  unfold open_root_inode, fill_and_bind, out2, out. rewrite Hreq.
  destruct (oe_do_request env <? 0);
    cbn [or_ret or_s_root or_events]; [discriminate 3|].
  destruct (negb _); cbn [or_ret or_s_root or_events]; [discriminate 3|].
  destruct (trace_nr (oe_reply_info env) =? 0);
    cbn [or_ret or_s_root or_events]; [discriminate 3|].
  destruct (oe_get_inode env) as [gerr root]. cbn [snd].
  destruct (gerr <? 0); cbn [or_ret or_s_root or_events]; [discriminate 3|].
  destruct (oe_d_alloc_root env); cbn [or_ret or_s_root or_events];
    [|discriminate 3].
  destruct (oe_fill_trace env) as [[ferr mnt] pmnt].
  destruct (ferr <? 0);
    [|destruct pmnt; [destruct (oe_add_cap env)|]];
    cbn [or_ret or_s_root or_events app];
    intros Hret Hne [= <-];
    try (injection Hret as Hret; congruence);
    (split; [reflexivity | left; reflexivity]).
Qed.

Lemma open_root_failure_leaves_released_root_witness :
  or_s_root (open_root_inode cap_failure_env None None)
  = Some {| d_inode := Some 1 |}
  /\ In (EvIputRoot 1) (or_events (open_root_inode cap_failure_env None None)).
Proof.
  assert (Hs : or_s_root (open_root_inode cap_failure_env None None)
               = Some {| d_inode := Some 1 |}) by reflexivity.
  assert (Hne : -12 <> 0) by lia.
  split; [exact Hs|].
  exact (proj2 (open_root_failure_leaves_released_root
                  cap_failure_env None 100 (-12) {| d_inode := Some 1 |}
                  eq_refl eq_refl Hne Hs)).
Defined.

(** ** The address of the selected monitor *)

(** X10.  With [num_mon] the length of [mon_addr]: for a random byte whose
    [char] is not negative the join request goes to one of the configured
    addresses; for a negative [char] (signed [char], byte 128..255) the
    read [mon_addr[which]] is inside the array only if [num_mon] divides
    the value, and is a read before the array otherwise. *)
Theorem selected_address_bounds :
  forall (sgn : bool) (args : ceph_mount_args) (b : Z),
    1 <= num_mon args ->
    Z.of_nat (length (mon_addr args)) = num_mon args ->
    0 <= b < 256 ->
    let r := char_of_byte sgn b in
    let which := select_mon sgn b (num_mon args) in
    (r < 0 <-> sgn = true /\ 128 <= b)
    /\ (0 <= r -> exists addr, mon_addr_at args which = Some addr
                               /\ In addr (mon_addr args))
    /\ (r < 0 -> (mon_addr_at args which = None
                  <-> Z.rem r (num_mon args) <> 0)).
Proof.
  intros sgn args b Hn Hlen Hb r which.
  assert (Hr : r < 0 <-> sgn = true /\ 128 <= b).
  { subst r. unfold char_of_byte.
    destruct sgn; cbn [andb];
      [destruct (Z.leb_spec 128 b) | ]; intuition (try discriminate; lia). }
  split; [exact Hr|]. split.
  - intros Hpos.
    assert (Hw : 0 <= which < num_mon args).
    { subst which. unfold select_mon, c_rem. fold r.
      rewrite Z.rem_mod_nonneg by lia. apply Z.mod_pos_bound. lia. }
    unfold mon_addr_at. destruct (Z.ltb_spec which 0); [lia|].
    destruct (nth_error (mon_addr args) (Z.to_nat which)) as [addr|] eqn:E.
    + exists addr. split; [reflexivity|]. eapply nth_error_In; eauto.
    + apply nth_error_None in E. lia.
  - intros Hneg.
    assert (Hw : which <= 0)
      by (subst which; unfold select_mon, c_rem; fold r;
          apply Z.rem_nonpos; lia).
    assert (Hwr : which = Z.rem r (num_mon args)) by reflexivity.
    unfold mon_addr_at. rewrite <- Hwr.
    destruct (Z.ltb_spec which 0) as [Hlt|Hge].
    + split; [lia | reflexivity].
    + assert (E0 : which = 0) by lia. rewrite E0. simpl.
      destruct (mon_addr args) as [|a0 l]; [simpl in Hlen; lia|].
      simpl. split; [discriminate | lia].
Qed.

Lemma selected_address_bounds_witness :
  mon_addr_at three_monitors (select_mon true 255 (num_mon three_monitors))
  = None.
Proof.
  assert (Hn : 1 <= num_mon three_monitors) by (simpl; lia).
  assert (Hlen : Z.of_nat (length (mon_addr three_monitors))
                 = num_mon three_monitors) by reflexivity.
  assert (Hb : 0 <= 255 < 256) by lia.
  pose proof (selected_address_bounds true three_monitors 255 Hn Hlen Hb) as H.
  cbv zeta in H. destruct H as [_ [_ Hneg]].
  apply Hneg; vm_compute; congruence.
Defined.

(** ** Creating and destroying, on the counter *)

(** X11.  With a count [n] in [0, INT_MAX): a creation that fails returns
    an error pointer and leaves [ceph_num_clients] at [n], having set the
    work queue up and shut it down again when [n] is 0 and the failure
    came after the allocation; a creation that succeeds followed by the
    destruction of that client also brings the count back to [n], with the
    same calls. *)
Theorem create_destroy_restores_count :
  forall (env : create_env) (sb : option dentry) (n : Z),
    0 <= n < INT_MAX ->
    let res := ceph_create_client env sb n in
    let up_down := if n =? 0 then [WorkqueueInit; WorkqueueShutdown] else [] in
    (created env = false ->
     (exists e, fst (fst res) = ErrPtr e)
     /\ snd (fst res) = n
     /\ snd res = if ce_kzalloc env then up_down else [])
    /\ (created env = true ->
        exists cl,
          fst (fst res) = Ptr cl
          /\ snd (fst res) = n + 1
          /\ fst (ceph_destroy_client cl (snd (fst res))) = n
          /\ snd res ++ snd (ceph_destroy_client cl (snd (fst res)))
             = up_down).
Proof.
  intros env sb n Hn res up_down. subst res up_down.
  unfold ceph_create_client, ceph_destroy_client, created, ERR_PTR,
    get_client_counter, put_client_counter.
  unfold INT_MAX in Hn.
  assert (Hup : wrap_int (n + 1) = n + 1)
    by (apply wrap_int_small; unfold INT_MIN, INT_MAX; lia).
  assert (Hdown : wrap_int (n + 1 - 1) = n).
  { replace (n + 1 - 1) with n by lia.
    apply wrap_int_small; unfold INT_MIN, INT_MAX; lia. }
  destruct (ce_kzalloc env); cbn [negb andb fst snd].
  2:{ split; [intros _; repeat split; eauto | discriminate]. }
  destruct (ce_messenger_create env) as [nm|e]; cbn [fst snd].
  2:{ rewrite Hup, Hdown.
      split; [intros _ | discriminate].
      split; [eauto|]. split; [reflexivity|].
      destruct (n =? 0); reflexivity. }
  destruct (ce_monc_init env) as [err monc0]. cbn [fst snd].
  destruct (err <? 0); cbn [negb fst snd].
  - rewrite Hup, Hdown.
    split; [intros _ | discriminate].
    split; [eauto|]. split; [reflexivity|].
    destruct (n =? 0); reflexivity.
  - rewrite Hup, Hdown.
    split; [discriminate | intros _].
    eexists. split; [reflexivity|]. split; [reflexivity|].
    split; [reflexivity|]. destruct (n =? 0); reflexivity.
Qed.

Lemma create_destroy_restores_count_witness :
  snd (fst (ceph_create_client failing_create_env None 0)) = 0
  /\ snd (ceph_create_client failing_create_env None 0)
     = [WorkqueueInit; WorkqueueShutdown].
Proof.
  assert (Hn : 0 <= 0 < INT_MAX) by (unfold INT_MAX; lia).
  pose proof (create_destroy_restores_count failing_create_env None 0 Hn) as H.
  cbv zeta in H. destruct H as [Hfail _].
  destruct (Hfail eq_refl) as [_ [Hcount Hev]].
  split; [exact Hcount | exact Hev].
Defined.

(** ** Repeated calls of the tracker *)

Lemma set_bit_twice (n m : Z) : set_bit n (set_bit n m) = set_bit n m.
Proof.
  unfold set_bit. rewrite <- Z.lor_assoc, Z.lor_diag. reflexivity.
Qed.

(** X12.  Calling [got_first_map] again with a number already reported
    leaves [mounting] as it is, but is not silent: when all three bits are
    set the repeated call invokes [complete] once more, and the [done]
    count of the completion goes up again. *)
Theorem got_first_map_again_signals_again :
  forall (c : ceph_client) (n : Z),
    0 <= n <= 2 ->
    0 <= mounting c < 8 ->
    let c1 := fst (got_first_map c n) in
    let c2 := fst (got_first_map c1 n) in
    let ev2 := snd (got_first_map c1 n) in
    mounting c2 = mounting c1
    /\ (In EvComplete ev2 <-> mounting c1 = 7)
    /\ mount_completion c2
       = mount_completion c1 + (if mounting c1 =? 7 then 1 else 0).
Proof.
  intros c n Hn Hm c1 c2 ev2.
  assert (Hm1 : 0 <= mounting c1 < 8).
  { subst c1. rewrite mounting_got_first_map. apply set_bit_low; assumption. }
  assert (Hsame : mounting c2 = mounting c1).
  { subst c2 c1. rewrite !mounting_got_first_map. apply set_bit_twice. }
  destruct (got_first_map_complete c1 n Hn Hm1) as [Hiff [_ Hdone]].
  fold c2 in Hiff, Hdone. fold ev2 in Hiff.
  rewrite Hsame in Hiff, Hdone.
  split; [exact Hsame | split; [exact Hiff | exact Hdone]].
Qed.

Lemma got_first_map_again_witness :
  In EvComplete
     (snd (got_first_map
             (fst (got_first_map (set_mounting fresh_client 6) 0)) 0)).
Proof.
  assert (Hn : 0 <= 0 <= 2) by lia.
  assert (Hm : 0 <= mounting (set_mounting fresh_client 6) < 8)
    by (simpl; lia).
  pose proof (got_first_map_again_signals_again
                (set_mounting fresh_client 6) 0 Hn Hm) as H.
  cbv zeta in H. destruct H as [_ [Hiff _]].
  apply Hiff. reflexivity.
Defined.


(** ** The monitor map and the client's identity *)

Section MonmapFacts.
Context {collab : Collaborators}.

(** [handle_monmap] touches the monitor map and the identity only; the map
    it leaves is the old one or the one decoded from the message. *)
Lemma handle_monmap_frame (client : ceph_client) (msg : ceph_msg) :
  let c' := fst (handle_monmap client msg) in
  mounting c' = mounting client
  /\ mount_completion c' = mount_completion client
  /\ s_root c' = s_root client
  /\ mdsc c' = mdsc client
  /\ osdc c' = osdc client
  /\ ~ In EvComplete (snd (handle_monmap client msg))
  /\ (monmap (monc c') = monmap (monc client)
      \/ ceph_monmap_decode (front msg) = Ptr (monmap (monc c'))).
Proof.
  unfold handle_monmap.
  destruct (ceph_monmap_decode (front msg)) as [new|e];
    [destruct (epoch (monmap (monc client)) =? 0)|];
    cbn; repeat (split; [reflexivity|]);
    (split; [intros [?|[]]; discriminate | auto]).
Qed.

(** One monitor map that decodes: it replaces the stored map, and the
    identity is taken from the message exactly when the stored epoch was
    0. *)
Lemma handle_monmap_decoded (client : ceph_client) (msg : ceph_msg)
    (new : ceph_monmap) :
  ceph_monmap_decode (front msg) = Ptr new ->
  let c' := fst (handle_monmap client msg) in
  monmap (monc c') = new
  /\ (epoch (monmap (monc client)) = 0 ->
      whoami c' = int_of_u32 (le32_to_cpu (name_num (hdr_dst_name msg)))
      /\ msgr_inst_name c' = hdr_dst_name msg)
  /\ (epoch (monmap (monc client)) <> 0 ->
      whoami c' = whoami client
      /\ msgr_inst_name c' = msgr_inst_name client).
Proof.
  intros Hdec. unfold handle_monmap. rewrite Hdec.
  destruct (Z.eqb_spec (epoch (monmap (monc client))) 0) as [E|E]; cbn;
    (split; [reflexivity|]); split; intros H;
    first [contradiction | split; reflexivity].
Qed.

Lemma handle_monmaps_later (msgs : list ceph_msg) :
  forall client,
    epoch (monmap (monc client)) <> 0 ->
    Forall (fun m => exists new, ceph_monmap_decode (front m) = Ptr new
                                 /\ epoch new <> 0) msgs ->
    whoami (handle_monmaps client msgs) = whoami client
    /\ msgr_inst_name (handle_monmaps client msgs) = msgr_inst_name client
    /\ epoch (monmap (monc (handle_monmaps client msgs))) <> 0.
Proof.
  induction msgs as [|msg msgs IH]; intros client He Hall.
  - repeat split; assumption.
  - inversion Hall as [|? ? [new [Hdec Hnew]] Hall']; subst.
    destruct (handle_monmap_decoded client msg new Hdec) as [Hmap [_ Hkeep]].
    destruct (Hkeep He) as [Hw Hname].
    unfold handle_monmaps in *. cbn [fold_left].
    destruct (IH (fst (handle_monmap client msg))) as [Hw' [Hn' He']];
      [rewrite Hmap; assumption | assumption |].
    rewrite Hw', Hn', Hw, Hname. repeat split; assumption.
Qed.
End MonmapFacts.

(** X13.  A client's identity is fixed by the first monitor map: starting
    with no monitor map (epoch 0), and handling monitor-map messages that
    all decode to maps with non-zero epochs, [whoami] and the messenger's
    name are those of the destination of the first message, whatever the
    later messages are addressed to. *)
Theorem first_monmap_fixes_identity :
  forall (collab : Collaborators) (client : ceph_client) (msg : ceph_msg)
         (msgs : list ceph_msg),
    epoch (monmap (monc client)) = 0 ->
    Forall (fun m => exists new, ceph_monmap_decode (front m) = Ptr new
                                 /\ epoch new <> 0) (msg :: msgs) ->
    let c' := handle_monmaps client (msg :: msgs) in
    whoami c' = int_of_u32 (le32_to_cpu (name_num (hdr_dst_name msg)))
    /\ msgr_inst_name c' = hdr_dst_name msg
    /\ epoch (monmap (monc c')) <> 0.
Proof.
  intros collab client msg msgs He Hall c'.
  inversion Hall as [|? ? [new [Hdec Hnew]] Hall']; subst.
  destruct (handle_monmap_decoded client msg new Hdec) as [Hmap [Hfirst _]].
  destruct (Hfirst He) as [Hw Hname].
  destruct (handle_monmaps_later msgs (fst (handle_monmap client msg)))
    as [Hw' [Hn' He']]; [rewrite Hmap; assumption | assumption |].
  subst c'. unfold handle_monmaps in *. cbn [fold_left].
  rewrite Hw', Hn', Hw, Hname. repeat split; assumption.
Qed.

Lemma first_monmap_fixes_identity_witness :
  whoami (@handle_monmaps steady_collaborators fresh_client
            [msg_of CEPH_MSG_MON_MAP [1];
             {| hdr_type := CEPH_MSG_MON_MAP;
                hdr_dst_name := {| name_type := 8; name_num := 7 |};
                front := [2] |}])
  = 4242.
Proof.
  refine (proj1 (first_monmap_fixes_identity
                   steady_collaborators fresh_client
                   (msg_of CEPH_MSG_MON_MAP [1])
                   [{| hdr_type := CEPH_MSG_MON_MAP;
                       hdr_dst_name := {| name_type := 8; name_num := 7 |};
                       front := [2] |}] eq_refl _)).
  apply Forall_cons; [eexists; split; [reflexivity | simpl; lia]|].
  apply Forall_cons; [eexists; split; [reflexivity | simpl; lia]|].
  apply Forall_nil.
Defined.

(** ** Runs of the dispatcher *)

Section DispatchRuns.
Context {collab : Collaborators}.

(** Every dispatch is a subsystem handler, leaving a client [mid] with the
    same [mounting] word, completion and root entry, followed for a map
    announcement by [got_first_map] when the map has just appeared.  When
    the subsystem clients keep their maps, a map present before is present
    in [mid], and the maps of the subsystems not announced are as
    before. *)
Lemma dispatch_cases (client : ceph_client) (msg : ceph_msg) :
  exists mid evh,
    ceph_dispatch client msg
    = match announced (hdr_type msg) with
      | Some k =>
          if negb (map_present k client) && map_present k mid
          then (fst (got_first_map mid (kind_num k)),
                evh ++ snd (got_first_map mid (kind_num k)) ++ [EvMsgPut])
          else (mid, evh ++ [EvMsgPut])
      | None => (mid, evh ++ [EvMsgPut])
      end
    /\ mounting mid = mounting client
    /\ mount_completion mid = mount_completion client
    /\ s_root mid = s_root client
    /\ ~ In EvComplete evh
    /\ (keeps_maps collab ->
        (forall k, map_present k client = true -> map_present k mid = true)
        /\ (forall k, announced (hdr_type msg) <> Some k ->
                      map_present k mid = map_present k client)).
Proof.
  unfold ceph_dispatch.
  destruct (hdr_type msg) eqn:Ht; cbn [announced];
    try (exists client; eexists; split; [reflexivity|];
         repeat (split; [reflexivity|]);
         split; [intros [?|[]]; discriminate|];
         intros _; split; [tauto | reflexivity]).
  - (* CEPH_MSG_MON_MAP *)
    destruct (handle_monmap_frame client msg)
      as [Hm [Hd [Hs [Hmds [Hosd [Hnc Hmap]]]]]].
    exists (fst (handle_monmap client msg)), (snd (handle_monmap client msg)).
    destruct (handle_monmap client msg) as [mid evh]. cbn [fst snd] in *.
    cbn [map_present kind_num]. rewrite negb_involutive.
    split.
    { destruct ((epoch (monmap (monc client)) =? 0)
                && negb (epoch (monmap (monc mid)) =? 0)); [|reflexivity].
      destruct (got_first_map mid 0) as [c' ev']. cbn [fst snd].
      rewrite <- app_assoc. reflexivity. }
    repeat (split; [assumption|]).
    intros [K1 _]. split.
    + intros [] Hp; cbn [map_present] in *;
        rewrite ?Hmds, ?Hosd; try assumption.
      destruct Hmap as [Hsame|Hdec]; [rewrite Hsame; assumption|].
      apply K1 in Hdec. destruct (Z.eqb_spec (epoch (monmap (monc mid))) 0);
        [contradiction | reflexivity].
    + intros [] Hk; cbn [map_present]; rewrite ?Hmds, ?Hosd;
        [congruence | reflexivity | reflexivity].
  - (* CEPH_MSG_STATFS_REPLY *)
    exists (set_monc client (ceph_monc_handle_statfs_reply (monc client) msg)),
      [].
    split; [reflexivity|]. repeat (split; [reflexivity|]).
    split; [intros []|].
    intros [_ [K2 _]].
    split; intros [] ?; cbn [map_present monc mdsc osdc set_monc] in *;
      rewrite ?K2; first [assumption | reflexivity].
  - (* CEPH_MSG_MDS_MAP *)
    exists (set_mdsc client (ceph_mdsc_handle_map (mdsc client) msg)), [].
    cbn [map_present kind_num mdsc set_mdsc app].
    split.
    { destruct (negb (non_null (mdsmap (mdsc client))) && _); [|reflexivity].
      destruct (got_first_map _ 1) as [c' ev']. reflexivity. }
    repeat (split; [reflexivity|]).
    split; [intros []|].
    intros [_ [_ [K3 _]]]. split.
    + intros [] Hp; cbn [map_present monc mdsc osdc set_mdsc] in *;
        auto.
    + intros [] Hk; cbn [map_present monc mdsc osdc set_mdsc];
        [reflexivity | congruence | reflexivity].
  - (* CEPH_MSG_CLIENT_SESSION *)
    exists (set_mdsc client (ceph_mdsc_handle_session (mdsc client) msg)), [].
    split; [reflexivity|]. repeat (split; [reflexivity|]).
    split; [intros []|].
    intros [_ [_ [_ [K4 _]]]].
    split; intros [] ?; cbn [map_present monc mdsc osdc set_mdsc] in *;
      rewrite ?K4; first [assumption | reflexivity].
  - (* CEPH_MSG_CLIENT_REQUEST_FORWARD *)
    exists (set_mdsc client (ceph_mdsc_handle_forward (mdsc client) msg)), [].
    split; [reflexivity|]. repeat (split; [reflexivity|]).
    split; [intros []|].
    intros [_ [_ [_ [_ [_ [K6 _]]]]]].
    split; intros [] ?; cbn [map_present monc mdsc osdc set_mdsc] in *;
      rewrite ?K6; first [assumption | reflexivity].
  - (* CEPH_MSG_CLIENT_REPLY *)
    exists (set_mdsc client (ceph_mdsc_handle_reply (mdsc client) msg)), [].
    split; [reflexivity|]. repeat (split; [reflexivity|]).
    split; [intros []|].
    intros [_ [_ [_ [_ [K5 _]]]]].
    split; intros [] ?; cbn [map_present monc mdsc osdc set_mdsc] in *;
      rewrite ?K5; first [assumption | reflexivity].
  - (* CEPH_MSG_CLIENT_FILECAPS *)
    exists (set_mdsc client (ceph_mdsc_handle_filecaps (mdsc client) msg)), [].
    split; [reflexivity|]. repeat (split; [reflexivity|]).
    split; [intros []|].
    intros [_ [_ [_ [_ [_ [_ [K7 _]]]]]]].
    split; intros [] ?; cbn [map_present monc mdsc osdc set_mdsc] in *;
      rewrite ?K7; first [assumption | reflexivity].
  - (* CEPH_MSG_OSD_MAP *)
    exists (set_osdc client (ceph_osdc_handle_map (osdc client) msg)), [].
    cbn [map_present kind_num osdc set_osdc app].
    split.
    { destruct (negb (non_null (osdmap (osdc client))) && _); [|reflexivity].
      destruct (got_first_map _ 2) as [c' ev']. reflexivity. }
    repeat (split; [reflexivity|]).
    split; [intros []|].
    intros [_ [_ [_ [_ [_ [_ [_ [K8 _]]]]]]]]. split.
    + intros [] Hp; cbn [map_present monc mdsc osdc set_osdc] in *;
        auto.
    + intros [] Hk; cbn [map_present monc mdsc osdc set_osdc];
        [reflexivity | reflexivity | congruence].
  - (* CEPH_MSG_OSD_OPREPLY *)
    exists (set_osdc client (ceph_osdc_handle_reply (osdc client) msg)), [].
    split; [reflexivity|]. repeat (split; [reflexivity|]).
    split; [intros []|].
    intros [_ [_ [_ [_ [_ [_ [_ [_ K9]]]]]]]].
    split; intros [] ?; cbn [map_present monc mdsc osdc set_osdc] in *;
      rewrite ?K9; first [assumption | reflexivity].
Qed.
End DispatchRuns.

Lemma count_complete_got_first_map (c : ceph_client) (n : Z) :
  0 <= n <= 2 -> 0 <= mounting c < 8 ->
  count_occ event_eq_dec (snd (got_first_map c n)) EvComplete
  = if mounting (fst (got_first_map c n)) =? 7 then 1%nat else 0%nat.
Proof.
  intros Hn Hm.
  destruct (got_first_map_complete c n Hn Hm) as [_ [Hev _]].
  rewrite Hev.
  destruct (mounting (fst (got_first_map c n)) =? 7); reflexivity.
Qed.

Lemma count_complete_handler (evh : list event) :
  ~ In EvComplete evh ->
  count_occ event_eq_dec (evh ++ [EvMsgPut]) EvComplete = 0%nat.
Proof.
  intros H. rewrite count_occ_app.
  rewrite (proj1 (count_occ_not_In event_eq_dec evh EvComplete) H).
  reflexivity.
Qed.

Lemma kind_num_range (k : map_kind) : 0 <= kind_num k <= 2.
Proof. destruct k; simpl; lia. Qed.

Lemma kind_num_inj (k k' : map_kind) : kind_num k = kind_num k' -> k = k'.
Proof. destruct k, k'; simpl; intros H; first [reflexivity | lia]. Qed.

(** One dispatch, whatever the handlers do: [mounting] keeps its bits and
    stays within bits 0..2, the [done] count of the completion grows by
    the number of calls of [complete], and the root entry is not touched. *)
Lemma dispatch_step_monotone {collab : Collaborators} (client : ceph_client)
    (msg : ceph_msg) :
  0 <= mounting client < 8 ->
  let c' := fst (ceph_dispatch client msg) in
  let ev := snd (ceph_dispatch client msg) in
  0 <= mounting c' < 8
  /\ (forall j, 0 <= j -> Z.testbit (mounting client) j = true ->
                Z.testbit (mounting c') j = true)
  /\ mount_completion c'
     = mount_completion client
       + Z.of_nat (count_occ event_eq_dec ev EvComplete)
  /\ s_root c' = s_root client.
Proof.
  intros Hm c' ev. subst c' ev.
  destruct (dispatch_cases client msg)
    as [mid [evh [Heq [Hmm [Hd [Hs [Hnc _]]]]]]].
  rewrite Heq. clear Heq.
  assert (Hplain : 0 <= mounting mid < 8
            /\ (forall j, 0 <= j -> Z.testbit (mounting client) j = true ->
                          Z.testbit (mounting mid) j = true)
            /\ mount_completion mid
               = mount_completion client
                 + Z.of_nat (count_occ event_eq_dec (evh ++ [EvMsgPut])
                                       EvComplete)
            /\ s_root mid = s_root client).
  { rewrite (count_complete_handler evh Hnc), Hmm, Hd.
    repeat split; try assumption; try lia. auto. }
  destruct (announced (hdr_type msg)) as [k|]; [|exact Hplain].
  destruct (negb (map_present k client) && map_present k mid);
    [|exact Hplain].
  cbn [fst snd].
  pose proof (kind_num_range k) as Hk.
  assert (Hmid : 0 <= mounting mid < 8) by (rewrite Hmm; assumption).
  destruct (got_first_map_complete mid (kind_num k) Hk Hmid)
    as [_ [_ Hdone]].
  destruct (got_first_map_frame mid (kind_num k)) as [_ [_ [_ [_ [_ Hroot]]]]].
  rewrite mounting_got_first_map in *.
  split; [apply set_bit_low; assumption|]. split.
  - intros j Hj Hbit. rewrite set_bit_testbit, Hmm, Hbit by lia. reflexivity.
  - split; [|rewrite Hroot; exact Hs].
    rewrite Hdone, Hd, !count_occ_app.
    rewrite (proj1 (count_occ_not_In event_eq_dec evh EvComplete) Hnc).
    rewrite (count_complete_got_first_map mid (kind_num k) Hk Hmid).
    rewrite mounting_got_first_map.
    destruct (set_bit (kind_num k) (mounting mid) =? 7); reflexivity.
Qed.

(** The same over a run of messages. *)
Lemma dispatch_all_monotone :
  forall (collab : Collaborators) (msgs : list ceph_msg)
         (client : ceph_client),
    0 <= mounting client < 8 ->
    let c' := fst (dispatch_all client msgs) in
    let ev := snd (dispatch_all client msgs) in
    0 <= mounting c' < 8
    /\ (forall j, 0 <= j -> Z.testbit (mounting client) j = true ->
                  Z.testbit (mounting c') j = true)
    /\ mount_completion c'
       = mount_completion client
         + Z.of_nat (count_occ event_eq_dec ev EvComplete)
    /\ s_root c' = s_root client.
Proof.
  intros collab msgs.
  induction msgs as [|msg msgs IH]; intros client Hm; cbn [dispatch_all].
  - cbn [fst snd count_occ]. repeat split; try lia. auto.
  - destruct (dispatch_step_monotone client msg Hm) as [Hb [Hbits [Hd Hs]]].
    destruct (ceph_dispatch client msg) as [c1 e1]. cbn [fst snd] in *.
    destruct (IH c1 Hb) as [Hb' [Hbits' [Hd' Hs']]].
    destruct (dispatch_all c1 msgs) as [c2 e2]. cbn [fst snd] in *.
    split; [exact Hb'|]. split; [auto|]. split.
    + rewrite Hd', Hd, count_occ_app. lia.
    + rewrite Hs'. exact Hs.
Qed.

(** X14.  Whatever messages arrive and whatever the subsystem handlers
    do, the dispatcher never clears a readiness bit, never sets a bit
    other than 0, 1 and 2, signals the completion only through
    [complete] (its [done] count grows by the number of those calls) and
    never touches the root entry. *)
Theorem dispatch_never_clears_readiness :
  forall (collab : Collaborators) (msgs : list ceph_msg)
         (client : ceph_client),
    0 <= mounting client < 8 ->
    let c' := fst (dispatch_all client msgs) in
    let ev := snd (dispatch_all client msgs) in
    0 <= mounting c' < 8
    /\ (forall j, 0 <= j -> Z.testbit (mounting client) j = true ->
                  Z.testbit (mounting c') j = true)
    /\ mount_completion c'
       = mount_completion client
         + Z.of_nat (count_occ event_eq_dec ev EvComplete)
    /\ s_root c' = s_root client.
Proof. exact dispatch_all_monotone. Qed.

Lemma dispatch_never_clears_readiness_witness :
  Z.testbit
    (mounting (fst (@dispatch_all sample_collaborators
                      (set_mounting fresh_client 5)
                      [msg_of CEPH_MSG_MDS_MAP [1]; msg_of CEPH_MSG_PING []])))
    2 = true.
Proof.
  assert (Hm : 0 <= mounting (set_mounting fresh_client 5) < 8)
    by (simpl; lia).
  pose proof (dispatch_never_clears_readiness
                sample_collaborators
                [msg_of CEPH_MSG_MDS_MAP [1]; msg_of CEPH_MSG_PING []]
                (set_mounting fresh_client 5) Hm) as H.
  cbv zeta in H. destruct H as [_ [Hbits _]].
  apply Hbits; [lia | reflexivity].
Defined.

Lemma dispatch_step_steady {collab : Collaborators} (client : ceph_client)
    (msg : ceph_msg) :
  keeps_maps collab ->
  bits_track_maps client ->
  bits_track_maps (fst (ceph_dispatch client msg))
  /\ Z.of_nat (count_occ event_eq_dec (snd (ceph_dispatch client msg))
                         EvComplete)
     = all_ready (fst (ceph_dispatch client msg)) - all_ready client.
Proof.
  intros Hkeep [Hm Hbits].
  destruct (dispatch_cases client msg)
    as [mid [evh [Heq [Hmm [_ [_ [Hnc Hpres]]]]]]].
  destruct (Hpres Hkeep) as [Hstay Hothers]. clear Hpres.
  rewrite Heq. clear Heq.
  assert (Hquiet :
            (forall k, map_present k mid = map_present k client) ->
            bits_track_maps mid
            /\ Z.of_nat (count_occ event_eq_dec (evh ++ [EvMsgPut]) EvComplete)
               = all_ready mid - all_ready client).
  { intros Hsame. split.
    - split; [rewrite Hmm; assumption|].
      intros k. rewrite Hmm, Hbits, Hsame. reflexivity.
    - rewrite (count_complete_handler evh Hnc).
      unfold all_ready. rewrite Hmm. simpl. lia. }
  destruct (announced (hdr_type msg)) as [k0|] eqn:Hann.
  2:{ apply Hquiet. intros k. apply Hothers. discriminate. }
  assert (Hrest : forall k, k <> k0 ->
                            map_present k mid = map_present k client).
  { intros k Hne. apply Hothers. intros [= ->]. contradiction. }
  destruct (map_present k0 client) eqn:Hhad; cbn [negb andb].
  { apply Hquiet. intros k. destruct (map_kind_eq_dec k k0) as [->|Hne].
    - rewrite Hhad. apply Hstay. exact Hhad.
    - apply Hrest. exact Hne. }
  destruct (map_present k0 mid) eqn:Hnow.
  2:{ apply Hquiet. intros k. destruct (map_kind_eq_dec k k0) as [->|Hne].
      - rewrite Hhad. exact Hnow.
      - apply Hrest. exact Hne. }
  (* the map has just appeared *)
  cbn [fst snd].
  pose proof (kind_num_range k0) as Hk0.
  assert (Hmid : 0 <= mounting mid < 8) by (rewrite Hmm; assumption).
  assert (Hclear : Z.testbit (mounting client) (kind_num k0) = false)
    by (rewrite Hbits; exact Hhad).
  assert (Hnot7 : mounting client <> 7).
  { intros E. rewrite E in Hclear.
    destruct k0; vm_compute in Hclear; discriminate. }
  split.
  - split; [rewrite mounting_got_first_map; apply set_bit_low; assumption|].
    intros k. rewrite map_present_got_first_map, mounting_got_first_map.
    pose proof (kind_num_range k) as Hk.
    rewrite set_bit_testbit, Hmm, Hbits by lia.
    destruct (map_kind_eq_dec k k0) as [->|Hne].
    + rewrite Z.eqb_refl, Hnow. apply orb_true_r.
    + rewrite (Hrest k Hne).
      destruct (Z.eqb_spec (kind_num k) (kind_num k0)) as [E|E].
      * apply kind_num_inj in E. contradiction.
      * apply orb_false_r.
  - rewrite !count_occ_app.
    rewrite (proj1 (count_occ_not_In event_eq_dec evh EvComplete) Hnc).
    rewrite (count_complete_got_first_map mid (kind_num k0) Hk0 Hmid).
    unfold all_ready.
    destruct (Z.eqb_spec (mounting client) 7); [contradiction|].
    destruct (mounting (fst (got_first_map mid (kind_num k0))) =? 7);
      reflexivity.
Qed.

Lemma dispatch_all_steady {collab : Collaborators} (msgs : list ceph_msg) :
  keeps_maps collab ->
  forall client,
    bits_track_maps client ->
    bits_track_maps (fst (dispatch_all client msgs))
    /\ Z.of_nat (count_occ event_eq_dec (snd (dispatch_all client msgs))
                           EvComplete)
       = all_ready (fst (dispatch_all client msgs)) - all_ready client.
Proof.
  intros Hkeep.
  induction msgs as [|msg msgs IH]; intros client Hinv; cbn [dispatch_all].
  - cbn [fst snd count_occ]. split; [assumption | simpl; lia].
  - destruct (dispatch_step_steady client msg Hkeep Hinv) as [Hinv1 Hc1].
    destruct (ceph_dispatch client msg) as [c1 e1]. cbn [fst snd] in *.
    destruct (IH c1 Hinv1) as [Hinv2 Hc2].
    destruct (dispatch_all c1 msgs) as [c2 e2]. cbn [fst snd] in *.
    split; [assumption|]. rewrite count_occ_app. lia.
Qed.

(** X15.  Suppose the subsystem clients keep their maps ([keeps_maps]).
    Start from a client with no map and no readiness bit, and dispatch any
    messages in any order.  Then bit [k] of [mounting] is set exactly when
    the map of subsystem [k] is there; [mounting] is 7 exactly when all
    three maps are there; and over the whole run [complete] has been
    called once if [mounting] is 7 and not at all otherwise. *)
Theorem readiness_tracks_maps :
  forall (collab : Collaborators) (msgs : list ceph_msg)
         (client : ceph_client),
    keeps_maps collab ->
    mounting client = 0 ->
    (forall k, map_present k client = false) ->
    let c' := fst (dispatch_all client msgs) in
    let ev := snd (dispatch_all client msgs) in
    (forall k, Z.testbit (mounting c') (kind_num k) = map_present k c')
    /\ (mounting c' = 7 <-> forall k, map_present k c' = true)
    /\ count_occ event_eq_dec ev EvComplete
       = (if mounting c' =? 7 then 1%nat else 0%nat)
    /\ mount_completion c'
       = mount_completion client + (if mounting c' =? 7 then 1 else 0).
Proof.
  intros collab msgs client Hkeep H0 Habsent c' ev.
  assert (Hinv : bits_track_maps client).
  { split; [rewrite H0; lia|]. intros k.
    rewrite H0, Z.testbit_0_l, Habsent. reflexivity. }
  destruct (dispatch_all_steady msgs Hkeep client Hinv) as [[Hb Hbits] Hcount].
  fold c' in Hb, Hbits, Hcount. fold ev in Hcount.
  assert (Hm0 : 0 <= mounting client < 8) by (rewrite H0; lia).
  destruct (dispatch_all_monotone collab msgs client Hm0)
    as [_ [_ [Hdone _]]].
  fold c' in Hdone. fold ev in Hdone.
  unfold all_ready in Hcount. rewrite H0 in Hcount. simpl in Hcount.
  split; [exact Hbits|]. split; [|split].
  - rewrite (low_word_full (mounting c') Hb). split.
    + intros [B0 [B1 B2]] k. rewrite <- Hbits. destruct k; assumption.
    + intros Hall.
      pose proof (Hbits MonitorMap) as B0.
      pose proof (Hbits MetadataMap) as B1.
      pose proof (Hbits StorageMap) as B2.
      cbn [kind_num] in B0, B1, B2. rewrite B0, B1, B2. auto.
  - destruct (mounting c' =? 7); lia.
  - rewrite Hdone. destruct (mounting c' =? 7); lia.
Qed.

Lemma steady_collaborators_keep_maps : keeps_maps steady_collaborators.
Proof.
  unfold keeps_maps. simpl.
  split; [|repeat split; reflexivity].
  intros [|e body] new; [discriminate|].
  intros [= <-]. simpl. lia.
Qed.

Lemma readiness_tracks_maps_witness :
  count_occ event_eq_dec
            (snd (@dispatch_all steady_collaborators fresh_client
                    [msg_of CEPH_MSG_OSD_MAP [1]; msg_of CEPH_MSG_MON_MAP [5];
                     msg_of CEPH_MSG_OSD_MAP [2]; msg_of CEPH_MSG_MDS_MAP [1];
                     msg_of CEPH_MSG_MON_MAP [6]]))
            EvComplete
  = 1%nat.
Proof.
  assert (Habsent : forall k, map_present k fresh_client = false)
    by (intros []; reflexivity).
  pose proof (readiness_tracks_maps
                steady_collaborators
                [msg_of CEPH_MSG_OSD_MAP [1]; msg_of CEPH_MSG_MON_MAP [5];
                 msg_of CEPH_MSG_OSD_MAP [2]; msg_of CEPH_MSG_MDS_MAP [1];
                 msg_of CEPH_MSG_MON_MAP [6]]
                fresh_client steady_collaborators_keep_maps eq_refl Habsent)
    as H.
  cbv zeta in H. destruct H as [_ [_ [Hcount _]]].
  rewrite Hcount. reflexivity.
Defined.
